(** * ESPEasyRobot: the lease parser and the probing loop of
      [espeasydownloadrobot.py], embedded in Rocq.

    The embedding follows the Python source function by function:
    - [regex_dnsmasq_leases] is the compiled pattern of line 93, written as a
      matcher on strings and related to a declarative line grammar;
    - [get_ips_from_leases_live] is the function of lines 92-103;
    - [main] is the part of [main()] that starts once the configuration has
      been loaded (lines 139-183): the work queue [todo], the dictionary
      [ip2hostname], the [while]/[for] loops over a list that is mutated
      while it is iterated, and the download into a ZIP archive.

    The outside world is explicit.  The network is a function from the
    history of the run and a request to the outcome of that request; the
    file system is a finite map from file names to the entries of the ZIP
    archive stored under that name, and it may refuse to create a file.
    Calls to [logging] are not modelled. *)

From Stdlib Require Import Ascii String.
From stdpp Require Import base option list strings gmap.

(** ** Characters and strings *)

Module Chars.

Definition code (c : ascii) : N := N_of_ascii c.

(** The class [0-9]. *)
Definition digit (c : ascii) : bool :=
  (48 <=? code c)%N && (code c <=? 57)%N.

(** The class [a-f0-9:]. *)
Definition mac (c : ascii) : bool :=
  ((97 <=? code c)%N && (code c <=? 102)%N) || digit c || (code c =? 58)%N.

(** The class [0-9.]. *)
Definition addr (c : ascii) : bool :=
  digit c || (code c =? 46)%N.

(** The class [^ ]. *)
Definition nonspace (c : ascii) : bool :=
  negb (code c =? 32)%N.

Definition slash (c : ascii) : bool := (code c =? 47)%N.

(** The class [a-f0-9]. *)
Definition hex (c : ascii) : bool :=
  ((97 <=? code c)%N && (code c <=? 102)%N) || digit c.

End Chars.

(** [all p s]: every character of [s] satisfies [p]. *)
Fixpoint all (p : ascii -> bool) (s : string) : bool :=
  match s with
  | EmptyString => true
  | String c s' => p c && all p s'
  end.

(** [str.replace(a, b)] for one-character [a] and [b]. *)
Fixpoint replace (a b : ascii) (s : string) : string :=
  match s with
  | EmptyString => EmptyString
  | String c s' => String (if Ascii.eqb c a then b else c) (replace a b s')
  end.

(** [str.startswith]. *)
Definition startswith (s p : string) : bool := String.prefix p s.

(** ** The pattern of line 93

    [^[0-9]{10} [a-f0-9:]{17} ([0-9.]{7,15}) ([^ ]+) \*$] *)

Module Regex.

(** [cls{n}] at the head of [s]: the rest of [s], when it matches. *)
Fixpoint exactly (cls : ascii -> bool) (n : nat) (s : string) : option string :=
  match n with
  | O => Some s
  | S n' =>
      match s with
      | String c s' => if cls c then exactly cls n' s' else None
      | EmptyString => None
      end
  end.

(** Greedy [cls{0,hi}] at the head of [s]: the matched text and the rest. *)
Fixpoint upto (cls : ascii -> bool) (hi : nat) (s : string) : string * string :=
  match hi, s with
  | S h, String c s' =>
      if cls c then let '(m, r) := upto cls h s' in (String c m, r)
      else (EmptyString, s)
  | _, _ => (EmptyString, s)
  end.

(** Greedy [cls*] at the head of [s]. *)
Fixpoint many (cls : ascii -> bool) (s : string) : string * string :=
  match s with
  | String c s' =>
      if cls c then let '(m, r) := many cls s' in (String c m, r)
      else (EmptyString, s)
  | EmptyString => (EmptyString, s)
  end.

(** One literal character. *)
Definition lit (a : ascii) (s : string) : option string :=
  match s with
  | String c s' => if Ascii.eqb c a then Some s' else None
  | EmptyString => None
  end.

(** [$] without [re.MULTILINE]: the end of the string, or just before a
    newline that ends the string. *)
Definition at_end (s : string) : bool :=
  match s with
  | EmptyString => true
  | String c EmptyString => Ascii.eqb c "010"%char
  | _ => false
  end.

End Regex.

(** [regex_dnsmasq_leases.match(line)] followed by [m.groups()]: [None] is
    the [None] that [match] returns for a line the pattern rejects. *)
Definition regex_dnsmasq_leases (line : string) : option (string * string) :=
  s1 ← Regex.exactly Chars.digit 10 line;
  s2 ← Regex.lit " "%char s1;
  s3 ← Regex.exactly Chars.mac 17 s2;
  s4 ← Regex.lit " "%char s3;
  let '(ip, s5) := Regex.upto Chars.addr 15 s4 in
  if (7 <=? String.length ip)%nat then
    s6 ← Regex.lit " "%char s5;
    let '(hostname, s7) := Regex.many Chars.nonspace s6 in
    if (1 <=? String.length hostname)%nat then
      s8 ← Regex.lit " "%char s7;
      s9 ← Regex.lit "*"%char s8;
      if Regex.at_end s9 then Some (ip, hostname) else None
    else None
  else None.

(** The line grammar, stated on the shape of the line: ten digits, a MAC
    field of seventeen characters among lowercase hexadecimal digits and
    colons, an address of seven to fifteen digits and dots, a non-empty
    identifier without spaces and a closing star, separated by single
    spaces. *)
Definition lease_line (line ip hostname : string) : Prop :=
  ∃ ts mc tl : string,
    line = ts +:+ " " +:+ mc +:+ " " +:+ ip +:+ " " +:+ hostname +:+ " *" +:+ tl
    ∧ String.length ts = 10 ∧ all Chars.digit ts = true
    ∧ String.length mc = 17 ∧ all Chars.mac mc = true
    ∧ 7 ≤ String.length ip ≤ 15 ∧ all Chars.addr ip = true
    ∧ 1 ≤ String.length hostname ∧ all Chars.nonspace hostname = true
    ∧ (tl = EmptyString ∨ tl = String "010"%char EmptyString).

(** [n] groups of two lowercase hexadecimal digits, separated by colons. *)
Fixpoint octets (n : nat) (s : string) : bool :=
  match n with
  | O => false
  | S n' =>
      match s with
      | String a (String b EmptyString) =>
          (n' =? 0)%nat && Chars.hex a && Chars.hex b
      | String a (String b (String c s')) =>
          Chars.hex a && Chars.hex b && Ascii.eqb c ":"%char && octets n' s'
      | _ => false
      end
  end.

(** The line grammar as the description of the lease feed words it: the
    fields of [lease_line], with a MAC field made of six lowercase
    hexadecimal octets. *)
Definition lease_line_octets (line ip hostname : string) : Prop :=
  ∃ ts mc tl : string,
    line = ts +:+ " " +:+ mc +:+ " " +:+ ip +:+ " " +:+ hostname +:+ " *" +:+ tl
    ∧ String.length ts = 10 ∧ all Chars.digit ts = true
    ∧ octets 6 mc = true
    ∧ 7 ≤ String.length ip ≤ 15 ∧ all Chars.addr ip = true
    ∧ 1 ≤ String.length hostname ∧ all Chars.nonspace hostname = true
    ∧ (tl = EmptyString ∨ tl = String "010"%char EmptyString).

(** ** Exceptions, responses and the outside world *)

(** The exceptions of [requests.exceptions] that a call of [requests.head]
    or [requests.get] raises.  [ConnectTimeout] is the only class named by
    the handler of line 164, and it has no subclass. *)
Inductive request_exception : Type :=
  | ConnectTimeout
  | ReadTimeout
  | ConnectionError
  | ProxyError
  | SSLError
  | TooManyRedirects
  | InvalidURL
  | MissingSchema
  | InvalidSchema
  | InvalidProxyURL
  | ChunkedEncodingError
  | ContentDecodingError
  | RetryError.

Inductive exception : Type :=
  | AttributeError                        (* [m.groups()] on [None] *)
  | KeyError (key : string)               (* [ip2hostname[ip]] *)
  | ValueError                            (* [todo.remove(ip)], [ip] absent *)
  | TypeError                             (* a [str] pattern on [bytes]; an [auth]
                                             tuple that is no pair *)
  | OSError                               (* [zipfile.ZipFile]: the file cannot
                                             be created ([FileNotFoundError]
                                             and the like) *)
  | RequestException (e : request_exception).

(** A line as [r.iter_lines(decode_unicode=True)] yields it: text when the
    response has an encoding, the undecoded bytes when it has none. *)
Inductive feed_line : Type :=
  | Text (s : string)
  | Raw (b : list Byte.byte).

(** A [requests.Response], seen through the three members the program
    reads: [r.ok], [r.content] and [r.iter_lines(decode_unicode=True)]. *)
Record Response : Type := mkResponse {
  ok : bool;
  content : list Byte.byte;
  iter_lines : list feed_line
}.

Inductive method : Type := HEAD | GET.

(** A call of [requests.head] or [requests.get] with its keyword
    arguments; [None] is an argument that the call does not pass. *)
Record Request : Type := mkRequest {
  meth : method;
  url : string;
  timeout : option nat;
  proxies : option (gmap string string);
  auth : option (list string)
}.

(** The three places where the program calls [todo.remove(ip)]. *)
Inductive site : Type :=
  | AlreadyDone      (* line 151: the archive exists *)
  | NotEspEasy       (* line 162: the probe was answered, not [ok] *)
  | Downloaded.      (* line 179: the download loop has finished *)

Inductive Event : Type :=
  | Requested (r : Request)
  | Slept (seconds : nat)
  | Removed (at_ : site) (ip : string).

(** The world outside the program.  The network answers a request, knowing
    what happened before, with a response or with an exception.  The file
    system lets the program create a file of a given name or does not (a
    missing directory for a name with [/], a name that is too long, a
    directory that is not writable). *)
Record World : Type := mkWorld {
  answer : list Event → Request → Response + request_exception;
  creates : string → bool
}.
Coercion answer : World >-> Funclass.

(** A ZIP archive: its entries in the order they were written. *)
Abbreviation Archive := (list (string * list Byte.byte)).

(** The configuration document, with its three recognised keys. *)
Record Config : Type := mkConfig {
  uri_leases : string;
  cfg_proxies : gmap string string;
  cfg_auth : list string
}.

(** The state of a run: the work queue [todo], the archives on disk and
    the history of what the program did. *)
Record State : Type := mkState {
  todo : list string;
  files : gmap string Archive;
  history : list Event
}.

Inductive outcome (A : Type) : Type :=
  | Returned (a : A)
  | Raised (e : exception)
  | Unfinished.       (* the fuel of the [while] loop ran out *)
Arguments Returned {A} a.
Arguments Raised {A} e.
Arguments Unfinished {A}.

(** ** The monad of the program: state and exceptions *)

Definition M (A : Type) : Type := State → outcome A * State.

Definition ret {A} (a : A) : M A := λ s, (Returned a, s).

Definition raise {A} (e : exception) : M A := λ s, (Raised e, s).

Definition bind {A B} (m : M A) (k : A → M B) : M B :=
  λ s, match m s with
       | (Returned a, s') => k a s'
       | (Raised e, s') => (Raised e, s')
       | (Unfinished, s') => (Unfinished, s')
       end.

Notation "x <- m ;; k" := (bind m (λ x, k))
  (at level 100, m at next level, right associativity, only parsing).
Notation "m ;;; k" := (bind m (λ _, k))
  (at level 100, right associativity, only parsing).

(** [try: m except cls: h], for a handler that names one class of
    [requests.exceptions]. *)
Definition try_except {A} (m : M A) (cls : request_exception → bool) (h : M A) : M A :=
  λ s, match m s with
       | (Raised (RequestException e), s') =>
           if cls e then h s' else (Raised (RequestException e), s')
       | r => r
       end.

Definition is_ConnectTimeout (e : request_exception) : bool :=
  match e with ConnectTimeout => true | _ => false end.

(** ** Library calls *)

(** [list.remove(x)]: drops the first occurrence. *)
Fixpoint list_remove (x : string) (l : list string) : option (list string) :=
  match l with
  | [] => None
  | y :: l' => if decide (y = x) then Some l' else cons y <$> list_remove x l'
  end.

(** [dict(pairs)]: a later pair overrides an earlier one with the same key. *)
Definition dict (pairs : list (string * string)) : gmap string string :=
  foldl (λ m p, <[p.1 := p.2]> m) ∅ pairs.

(** The [auth] argument of [requests.get]: an empty tuple counts as no
    credentials and a pair as basic-auth credentials; any other tuple is
    called as if it were an authentication handler, which raises
    [TypeError] before anything is sent. *)
Definition auth_ok (a : list string) : bool :=
  (length a =? 2)%nat || (length a =? 0)%nat.

Definition getitem (d : gmap string string) (k : string) : M string :=
  match d !! k with
  | Some v => ret v
  | None => raise (KeyError k)
  end.

Section Program.

Variable world : World.
Variable config : Config.

Definition requests (r : Request) : M Response :=
  λ s, if default true (auth_ok <$> auth r) then
         let s' := mkState (todo s) (files s) (history s ++ [Requested r]) in
         match world (history s) r with
         | inl resp => (Returned resp, s')
         | inr e => (Raised (RequestException e), s')
         end
       else (Raised TypeError, s).

Definition todo_remove (at_ : site) (ip : string) : M unit :=
  λ s, match list_remove ip (todo s) with
       | Some l => (Returned tt, mkState l (files s) (history s ++ [Removed at_ ip]))
       | None => (Raised ValueError, s)
       end.

Definition os_path_exists (name : string) : M bool :=
  λ s, (Returned (bool_decide (is_Some (files s !! name))), s).

Definition time_sleep (seconds : nat) : M unit :=
  λ s, (Returned tt, mkState (todo s) (files s) (history s ++ [Slept seconds])).

(** [zipfile.ZipFile(name, 'a')]: an existing file keeps its entries, a
    missing one is created empty, when the file system lets it be created,
    and the call raises otherwise. *)
Definition ZipFile (name : string) : M unit :=
  λ s, match files s !! name with
       | Some _ => (Returned tt, s)
       | None =>
           if creates world name
           then (Returned tt, mkState (todo s) (<[name := []]> (files s)) (history s))
           else (Raised OSError, s)
       end.

Definition writestr (name entry : string) (data : list Byte.byte) : M unit :=
  λ s, (Returned tt,
        mkState (todo s)
                (<[name := default [] (files s !! name) ++ [(entry, data)]]> (files s))
                (history s)).

(** ** [get_ips_from_leases_live] (lines 92-103) *)

Fixpoint for_line_in (lines : list feed_line) (ips_hostnames : list (string * string))
  : M (list (string * string)) :=
  match lines with
  | [] => ret ips_hostnames
  | Raw _ :: _ => raise TypeError          (* a [str] pattern on [bytes] *)
  | Text line :: rest =>
      match regex_dnsmasq_leases line with
      | None => raise AttributeError
      | Some (ip, hostname) =>
          if startswith hostname "ESP-"
          then for_line_in rest (ips_hostnames ++ [(ip, hostname)])
          else for_line_in rest ips_hostnames
      end
  end.

(** [requests.get(uri_leases)]: no keyword argument. *)
Definition lease_feed (uri : string) : Request := mkRequest GET uri None None None.

Definition get_ips_from_leases_live (uri : string) : M (list (string * string)) :=
  req <- requests (lease_feed uri) ;;
  if ok req then for_line_in (iter_lines req) [] else ret [].

(** ** [main], lines 139-183 *)

Definition DOWNLOAD_FILES : list string :=
  ["json"; "config.dat"; "security.dat"; "rules1.txt"; "rules2.txt";
   "rules3.txt"; "rules4.txt"; "esp.css"; "notification.dat"].

Definition archive_name (ip hostname : string) : string :=
  replace "."%char "-"%char ip +:+ "_" +:+ hostname +:+ ".zip".

Definition probe (ip : string) : Request :=
  mkRequest HEAD ("http://" +:+ ip +:+ "/json") (Some 1) (Some (cfg_proxies config)) None.

Definition fetch (ip filename : string) : Request :=
  mkRequest GET ("http://" +:+ ip +:+ "/" +:+ filename) None
            (Some (cfg_proxies config)) (Some (cfg_auth config)).

(** Lines 171-176, inside the [with] block. *)
Fixpoint for_filename_in (names : list string) (ip archive_filename : string) : M unit :=
  match names with
  | [] => ret tt
  | filename :: rest =>
      r <- requests (fetch ip filename) ;;
      writestr archive_filename filename (content r) ;;;
      for_filename_in rest ip archive_filename
  end.

(** Lines 157-165.  The result tells whether control reaches line 167
    ([true]) or leaves the iteration through [continue] ([false]). *)
Definition check_alive (ip : string) : M bool :=
  try_except
    (r <- requests (probe ip) ;;
     if negb (ok r) then (todo_remove NotEspEasy ip ;;; ret false) else ret true)
    is_ConnectTimeout
    (ret false).

(** One iteration of the [for] loop, lines 148-179. *)
Definition body (ip2hostname : gmap string string) (ip : string) : M unit :=
  hostname <- getitem ip2hostname ip ;;
  let archive_filename := archive_name ip hostname in
  done_ <- os_path_exists archive_filename ;;
  if (done_ : bool) then todo_remove AlreadyDone ip
  else
    alive <- check_alive ip ;;
    if (alive : bool) then
      ZipFile archive_filename ;;;
      for_filename_in DOWNLOAD_FILES ip archive_filename ;;;
      todo_remove Downloaded ip
    else ret tt.

(** [for ip in todo] (line 147).  The list iterator holds an index into
    the live list: each step reads [todo[i]], stops when [i] is past the
    end, and otherwise runs the body and moves on to [i + 1], whatever the
    body did to the list.  [n] bounds the number of steps. *)
Fixpoint for_ip_in_todo (n : nat) (ip2hostname : gmap string string) (i : nat) : M unit :=
  λ s, match todo s !! i with
       | None => (Returned tt, s)
       | Some ip =>
           match n with
           | O => (Unfinished, s)
           | S n' => (body ip2hostname ip ;;; for_ip_in_todo n' ip2hostname (S i)) s
           end
       end.

(** One pass: line 147 to line 181. *)
Definition pass (ip2hostname : gmap string string) : M unit :=
  λ s, (for_ip_in_todo (length (todo s)) ip2hostname 0 ;;; time_sleep 15) s.

(** [while len(todo) > 0] (line 146), for at most [fuel] passes. *)
Fixpoint while_todo (fuel : nat) (ip2hostname : gmap string string) : M unit :=
  λ s, if (0 <? length (todo s))%nat then
         match fuel with
         | O => (Unfinished, s)
         | S fuel' => (pass ip2hostname ;;; while_todo fuel' ip2hostname) s
         end
       else (Returned tt, s).

Definition set_todo (l : list string) : M unit :=
  λ s, (Returned tt, mkState l (files s) (history s)).

Definition main (fuel : nat) : M Z :=
  ips_hostnames <- get_ips_from_leases_live (uri_leases config) ;;
  set_todo (ips_hostnames.*1) ;;;
  let ip2hostname := dict ips_hostnames in
  while_todo fuel ip2hostname ;;;
  ret 0%Z.

End Program.

(** The state in which [main] starts: nothing queued, nothing done yet. *)
Definition initial (disk : gmap string Archive) : State := mkState [] disk [].

(** [s] after one more event. *)
Definition record (s : State) (e : Event) : State :=
  mkState (todo s) (files s) (history s ++ [e]).

(** A request sent to the device at [ip], whatever the method and the
    path. *)
Definition contacts (ip : string) (e : Event) : Prop :=
  ∃ r path, e = Requested r ∧ url r = "http://" +:+ ip +:+ "/" +:+ path.

(** A string without [/]. *)
Definition slashless (s : string) : Prop :=
  all (λ c, negb (Chars.slash c)) s = true.

(** How often [ip] was removed from the queue in a history. *)
Definition is_removal (ip : string) (e : Event) : bool :=
  match e with
  | Removed _ ip' => bool_decide (ip' = ip)
  | _ => false
  end.

Definition removals (ip : string) (h : list Event) : nat :=
  length (filter (λ e, is_removal ip e) h).

(** Since the history was [h0], nothing has been sent to [ip], whose
    archive is on disk; the queued addresses have no [/]. *)
Definition untouched (ip hostname : string) (h0 : list Event) (s : State) : Prop :=
  is_Some (files s !! archive_name ip hostname)
  ∧ Forall slashless (todo s)
  ∧ ∃ evs, history s = h0 ++ evs ∧ Forall (λ e, ¬ contacts ip e) evs.

(** Of the addresses [queue] the run started with, those that have left
    the queue were removed once and the others never; no address is queued
    twice. *)
Definition removed_once (queue : list string) (s : State) : Prop :=
  NoDup (todo s)
  ∧ todo s ⊆ queue
  ∧ ∀ ip, removals ip (history s) = if decide (ip ∈ queue ∧ ip ∉ todo s) then 1 else 0.

(** An entry whose identifier begins with [ESP-]. *)
Definition is_esp (e : string * string) : Prop := ∃ r, e.2 = "ESP-" +:+ r.

(** A line on which the parser raises: text outside the line grammar, or
    undecoded bytes. *)
Definition rejected (l : feed_line) : Prop :=
  match l with
  | Text s => ∀ ip hostname, ¬ lease_line s ip hostname
  | Raw _ => True
  end.

(** The one exception of a request that the program handles: the probe
    that times out while connecting. *)
Definition caught (r : Request) (e : request_exception) : Prop :=
  meth r = HEAD ∧ e = ConnectTimeout.

(** In the history [h], every request that the world answered with an
    exception was a probe that timed out while connecting. *)
Definition all_caught (world : World) (h : list Event) : Prop :=
  ∀ j r e, h !! j = Some (Requested r) → world (take j h) r = inr e → caught r e.

(** A request of [h] that the world answered with an exception the program
    does not handle is the last event of [h], and the outcome [o] is that
    exception, raised. *)
Definition uncaught_last {A} (world : World) (o : outcome A) (h : list Event) : Prop :=
  ∀ j r e,
    h !! j = Some (Requested r) → world (take j h) r = inr e → ¬ caught r e →
    o = Raised (RequestException e) ∧ S j = length h.

(** The shape of an entry that the parser keeps: an address of seven to
    fifteen digits and dots, and a non-empty identifier without spaces that
    begins with [ESP-]. *)
Definition kept_entry (e : string * string) : Prop :=
  7 ≤ String.length e.1 ≤ 15
  ∧ all Chars.addr e.1 = true
  ∧ 1 ≤ String.length e.2
  ∧ all Chars.nonspace e.2 = true
  ∧ is_esp e.

(** What a run over [queue] may do after it has read the lease feed: probe
    a queued address, fetch a resource of the manifest from a queued
    address, remove a queued address, sleep 15 seconds. *)
Definition expected (config : Config) (queue : list string) (e : Event) : Prop :=
  match e with
  | Requested r =>
      ∃ ip, ip ∈ queue
            ∧ (r = probe config ip ∨ ∃ f, f ∈ DOWNLOAD_FILES ∧ r = fetch config ip f)
  | Slept seconds => seconds = 15
  | Removed _ ip => ip ∈ queue
  end.

(** The event at index [k] of [h] belongs to a download from [ip]: a probe
    of [ip] stands at an earlier index [j], it was answered with success,
    and everything between [j] and [k] is a fetch from [ip]. *)
Definition after_probe (world : World) (config : Config) (h : list Event)
    (k : nat) (ip : string) : Prop :=
  ∃ j resp,
    j < k
    ∧ h !! j = Some (Requested (probe config ip))
    ∧ world (take j h) (probe config ip) = inl resp
    ∧ ok resp = true
    ∧ ∀ m, j < m < k → ∃ f, h !! m = Some (Requested (fetch config ip f)).

(** The elements of a list at positions 0, 2, 4, ... and those at
    positions 1, 3, 5, ... *)
Fixpoint evens (l : list string) : list string :=
  match l with
  | [] => []
  | x :: l' => x :: match l' with [] => [] | _ :: l'' => evens l'' end
  end.

Fixpoint odds (l : list string) : list string :=
  match l with
  | [] => []
  | _ :: l' => match l' with [] => [] | y :: l'' => y :: odds l'' end
  end.

(** ** Sample data *)

Module Sample.

Definition kitchen : string :=
  "1234567890 aa:bb:cc:dd:ee:ff 192.168.1.50 ESP-Kitchen *".
Definition bath : string :=
  "1234567891 aa:bb:cc:dd:ee:f0 192.168.1.51 ESP-Bath *".
Definition other : string :=
  "1234567892 aa:bb:cc:dd:ee:f1 192.168.1.52 OTHER-Device *".
Definition garbled : string :=
  "1234567893 AA:BB:CC:DD:EE:F2 192.168.1.53 printer *".

(** A MAC field of seventeen hexadecimal digits, without colons. *)
Definition unseparated : string :=
  "1234567894 aabbccddeeff00112 192.168.1.50 ESP-Kitchen *".
(** An identifier with a [/]. *)
Definition nested : string :=
  "1234567895 aa:bb:cc:dd:ee:f3 192.168.1.54 ESP-a/b *".

Definition config : Config := mkConfig "http://router/leases" ∅ ["admin"; "secret"].

(** A configuration whose [auth] list has three elements. *)
Definition config3 : Config :=
  mkConfig "http://router/leases" ∅ ["admin"; "secret"; "realm"].

(** A lease feed served with a declared encoding: the lines arrive as
    text. *)
Definition feed (lines : list string) : Response :=
  mkResponse true [] (Text <$> lines).

(** The same feed served without one: the lines arrive as bytes. *)
Definition raw_feed (lines : list string) : Response :=
  mkResponse true [] (Raw ∘ list_byte_of_string <$> lines).

Definition page (success : bool) (body : list Byte.byte) : Response :=
  mkResponse success body [].

Definition reply : Type := list Event → string → Response + request_exception.

(** A network that serves [lease] at the configured lease URI and hands
    every other request to [on_head] or [on_get]. *)
Definition network (lease : Response) (on_head on_get : reply) : World :=
  mkWorld
    (λ h rq,
       if decide (url rq = uri_leases config) then inl lease
       else match meth rq with
            | HEAD => on_head h (url rq)
            | GET => on_get h (url rq)
            end)
    (λ _, true).

Definition braces : list Byte.byte := [Byte.x7b; Byte.x7d].

Definition answers (success : bool) (body : list Byte.byte) : reply :=
  λ _ _, inl (page success body).

Definition fails (e : request_exception) : reply := λ _ _, inr e.

(** Every path is served, except that [path] answers 404 with an empty body. *)
Definition missing (path : string) : reply :=
  λ _ u, if decide (u = path) then inl (page false []) else inl (page true braces).

(** Every path is served, except that the request for [path] raises [e]. *)
Definition broken (path : string) (e : request_exception) : reply :=
  λ _ u, if decide (u = path) then inr e else inl (page true braces).

Definition kitchen_ip : string := "192.168.1.50".
Definition bath_ip : string := "192.168.1.51".
Definition kitchen_zip : string := "192-168-1-50_ESP-Kitchen.zip".

(** The queue and the dictionary that [main] builds from [kitchen] and
    [bath]. *)
Definition queued (disk : gmap string Archive) (h : list Event) : State :=
  mkState [kitchen_ip; bath_ip] disk h.

Definition names : gmap string string :=
  dict [(kitchen_ip, "ESP-Kitchen"); (bath_ip, "ESP-Bath")].

End Sample.

(** ** Sample networks and disks *)

Module Runs.

Import Sample.

Definition lease_request : Event := Requested (lease_feed (uri_leases config)).

(** Two devices in the feed, both awake and serving every resource. *)
Definition both_awake : World :=
  network (feed [kitchen; bath]) (answers true []) (answers true braces).

(** One device, whose probe fails with [e]. *)
Definition probe_fails (e : request_exception) : World :=
  network (feed [kitchen]) (fails e) (answers true braces).

(** One device, awake, whose [config.dat] cannot be fetched. *)
Definition fetch_breaks : World :=
  network (feed [kitchen]) (answers true [])
          (broken "http://192.168.1.50/config.dat" ConnectionError).

(** One device, awake, that answers 404 for [rules2.txt]. *)
Definition fetch_misses : World :=
  network (feed [kitchen]) (answers true []) (missing "http://192.168.1.50/rules2.txt").

(** The same device twice in the feed. *)
Definition twice : World :=
  network (feed [kitchen; kitchen]) (answers true []) (answers true braces).

(** A feed with a non-matching identifier and a repeated entry. *)
Definition mixed : World :=
  network (feed [kitchen; other; bath; kitchen]) (answers true []) (answers true braces).

(** A feed whose second line has an upper-case MAC. *)
Definition garbled_feed : World :=
  network (feed [kitchen; garbled]) (answers true []) (answers true braces).

(** The router answers the request for the feed with an error page. *)
Definition no_feed : World :=
  network (page false braces) (answers true []) (answers true braces).

(** Whether the program has slept so far. *)
Definition slept (h : list Event) : bool :=
  existsb (λ e, match e with Slept _ => true | _ => false end) h.

(** One device, which answers the probe only after the first sleep. *)
Definition wakes_late : World :=
  network (feed [kitchen])
          (λ h _, if slept h then inl (page true []) else inr ConnectTimeout)
          (answers true braces).

(** One device, awake and serving every resource. *)
Definition alone : World :=
  network (feed [kitchen]) (answers true []) (answers true braces).

(** A feed with the other device alone. *)
Definition stranger : World :=
  network (feed [other]) (answers true []) (answers true braces).

(** One device, awake, whose line has a MAC field without colons. *)
Definition unseparated_mac : World :=
  network (feed [unseparated]) (answers true []) (answers true braces).

(** The feed of [alone], served without a declared encoding. *)
Definition undecoded : World :=
  network (raw_feed [kitchen]) (answers true []) (answers true braces).

(** One device, awake, whose identifier has a [/], on a file system that
    lacks the directory which the archive name then asks for. *)
Definition no_directory : World :=
  mkWorld (network (feed [nested]) (answers true []) (answers true braces))
          (λ name, all (λ c, negb (Chars.slash c)) name).

Definition archived : gmap string Archive := {[ kitchen_zip := [] ]}.

(** The run over the feed of [alone], once the feed has been read. *)
Definition kitchen_queued : State := mkState [kitchen_ip] ∅ [lease_request].

Definition kitchen_names : gmap string string := dict [(kitchen_ip, "ESP-Kitchen")].

(** The answers of [fetch_misses] to the requests for the manifest. *)
Definition pages_but_one : list Response :=
  (λ f, if decide (f = "rules2.txt") then page false [] else page true braces)
    <$> DOWNLOAD_FILES.

(** The nine entries of an archive whose resources all hold [braces]. *)
Definition full : Archive := (λ f, (f, braces)) <$> DOWNLOAD_FILES.

End Runs.

(** ** More sample networks and disks *)

Module Cases.

Import Sample.

(** The router cannot be reached: the request for the feed raises [e]. *)
Definition router_down (e : request_exception) : World :=
  mkWorld (λ _ _, inr e) (λ _, true).

Definition bath_zip : string := "192-168-1-51_ESP-Bath.zip".

(** Both archives are on disk already. *)
Definition all_archived : gmap string Archive :=
  {[ kitchen_zip := []; bath_zip := [] ]}.

Definition kitchen_entry : string * string := (kitchen_ip, "ESP-Kitchen").
Definition bath_entry : string * string := (bath_ip, "ESP-Bath").

End Cases.

(** * Properties *)

(** ** The pattern and the line grammar *)

Section RegexFacts.

Variable cls : ascii → bool.

Lemma exactly_inv n s r :
  Regex.exactly cls n s = Some r →
  ∃ a, s = a +:+ r ∧ String.length a = n ∧ all cls a = true.
Proof.
  revert s. induction n as [|n IH]; intros s H; simpl in H.
  - exists EmptyString. by simplify_eq.
  - destruct s as [|c s]; [done|]. destruct (cls c) eqn:Hc; [|done].
    destruct (IH _ H) as (a & -> & Hlen & Hall).
    exists (String c a). simpl. by rewrite Hc, Hall, Hlen.
Qed.

Lemma exactly_app a r :
  all cls a = true → Regex.exactly cls (String.length a) (a +:+ r) = Some r.
Proof.
  induction a as [|c a IH]; simpl; [done|].
  intros [Hc Ha]%andb_prop. rewrite Hc. auto.
Qed.

Lemma upto_inv hi s m r :
  Regex.upto cls hi s = (m, r) →
  s = m +:+ r ∧ all cls m = true ∧ String.length m ≤ hi.
Proof.
  revert s m r. induction hi as [|hi IH]; intros s m r H; simpl in H.
  - destruct s; simplify_eq; simpl; auto with lia.
  - destruct s as [|c s]; [simplify_eq; simpl; auto with lia|].
    destruct (cls c) eqn:Hc; [|simplify_eq; simpl; auto with lia].
    destruct (Regex.upto cls hi s) as [m' r'] eqn:E. simplify_eq.
    destruct (IH _ _ _ E) as (-> & Hall & Hlen).
    simpl. rewrite Hc, Hall. auto with lia.
Qed.

Lemma upto_app hi a c r :
  String.length a ≤ hi → all cls a = true → cls c = false →
  Regex.upto cls hi (a +:+ String c r) = (a, String c r).
Proof.
  revert hi. induction a as [|x a IH]; intros hi Hlen Ha Hc; simpl in *.
  - destruct hi; simpl; [done|]. by rewrite Hc.
  - destruct hi as [|hi]; [lia|]. apply andb_prop in Ha as [Hx Ha].
    simpl. rewrite Hx, IH; auto with lia.
Qed.

Lemma many_inv s m r :
  Regex.many cls s = (m, r) → s = m +:+ r ∧ all cls m = true.
Proof.
  revert m r. induction s as [|c s IH]; intros m r H; simpl in H.
  - by simplify_eq.
  - destruct (cls c) eqn:Hc; [|by simplify_eq].
    destruct (Regex.many cls s) as [m' r'] eqn:E. simplify_eq.
    destruct (IH _ _ eq_refl) as (-> & Hall). simpl. by rewrite Hc, Hall.
Qed.

Lemma many_app a c r :
  all cls a = true → cls c = false →
  Regex.many cls (a +:+ String c r) = (a, String c r).
Proof.
  induction a as [|x a IH]; intros Ha Hc; simpl in *.
  - by rewrite Hc.
  - apply andb_prop in Ha as [Hx Ha]. by rewrite Hx, IH.
Qed.

End RegexFacts.

Lemma lit_inv a s r : Regex.lit a s = Some r → s = String a r.
Proof.
  destruct s as [|c s]; simpl; [done|].
  destruct (Ascii.eqb c a) eqn:E; [|done]. apply Ascii.eqb_eq in E. by intros [= ->]; subst.
Qed.

Lemma at_end_inv s :
  Regex.at_end s = true → s = EmptyString ∨ s = String "010"%char EmptyString.
Proof.
  destruct s as [|c [|c' s]]; simpl; auto; [|done].
  intros ->%Ascii.eqb_eq. auto.
Qed.

(** The matcher accepts exactly the lines of the grammar, and its two groups
    are the address and the identifier of the line. *)
Local Ltac red_in H :=
  cbn -[Regex.exactly Regex.upto Regex.many Regex.lit Regex.at_end String.length Nat.leb] in H.

Lemma regex_sound line ip hostname :
  regex_dnsmasq_leases line = Some (ip, hostname) → lease_line line ip hostname.
Proof.
  unfold regex_dnsmasq_leases. intros H.
  destruct (Regex.exactly Chars.digit 10 line) as [s1|] eqn:E1; [|done].
  apply exactly_inv in E1 as (ts & -> & Hts & Htsc). red_in H.
  destruct (Regex.lit " "%char s1) as [s2|] eqn:E2; [|done].
  apply lit_inv in E2 as ->. red_in H.
  destruct (Regex.exactly Chars.mac 17 s2) as [s3|] eqn:E3; [|done].
  apply exactly_inv in E3 as (mc & -> & Hmc & Hmcc). red_in H.
  destruct (Regex.lit " "%char s3) as [s4|] eqn:E4; [|done].
  apply lit_inv in E4 as ->. red_in H.
  destruct (Regex.upto Chars.addr 15 s4) as [ip' s5] eqn:E5.
  apply upto_inv in E5 as (-> & Hipc & Hiplen).
  destruct (7 <=? String.length ip')%nat eqn:E7; [|done].
  apply Nat.leb_le in E7.
  destruct (Regex.lit " "%char s5) as [s6|] eqn:E6; [|done].
  apply lit_inv in E6 as ->. red_in H.
  destruct (Regex.many Chars.nonspace s6) as [h' s7] eqn:E8.
  apply many_inv in E8 as (-> & Hhc).
  destruct (1 <=? String.length h')%nat eqn:E9; [|done].
  apply Nat.leb_le in E9.
  destruct (Regex.lit " "%char s7) as [s8|] eqn:E10; [|done].
  apply lit_inv in E10 as ->. red_in H.
  destruct (Regex.lit "*"%char s8) as [s9|] eqn:E11; [|done].
  apply lit_inv in E11 as ->. red_in H.
  destruct (Regex.at_end s9) eqn:E12; [|done].
  apply at_end_inv in E12. simplify_eq.
  exists ts, mc, s9. repeat split; auto.
Qed.

Lemma lit_app a r : Regex.lit a (String a EmptyString +:+ r) = Some r.
Proof. simpl. by rewrite Ascii.eqb_refl. Qed.

Local Ltac red_goal :=
  cbn -[Regex.exactly Regex.upto Regex.many Regex.lit String.length Nat.leb String.append].

Lemma regex_complete line ip hostname :
  lease_line line ip hostname → regex_dnsmasq_leases line = Some (ip, hostname).
Proof.
  intros (ts & mc & tl & -> & Hts & Htsc & Hmc & Hmcc & [Hip1 Hip2] & Hipc & Hh & Hhc & Htl).
  unfold regex_dnsmasq_leases.
  pose proof (exactly_app Chars.digit ts) as X1. rewrite Hts in X1.
  pose proof (exactly_app Chars.mac mc) as X2. rewrite Hmc in X2.
  rewrite X1 by done. red_goal. rewrite lit_app. red_goal.
  rewrite X2 by done. red_goal. rewrite lit_app. red_goal.
  change (ip +:+ " " +:+ hostname +:+ " *" +:+ tl)
    with (ip +:+ String " "%char (hostname +:+ String " "%char (String "*"%char tl))).
  rewrite upto_app by done.
  apply Nat.leb_le in Hip1. rewrite Hip1.
  cbn -[Regex.many String.length Nat.leb String.append].
  rewrite many_app by done.
  apply Nat.leb_le in Hh. rewrite Hh.
  by destruct Htl as [-> | ->].
Qed.

Lemma regex_rejects line :
  (∀ ip hostname, ¬ lease_line line ip hostname) → regex_dnsmasq_leases line = None.
Proof.
  intros H. destruct (regex_dnsmasq_leases line) as [[ip h]|] eqn:E; [|done].
  by apply regex_sound, H in E.
Qed.

(** [startswith] is what its name says. *)
(** Octets are made of characters that the MAC field of the pattern
    takes, and six of them fill the field: the grammar with octets is
    narrower than the grammar of the pattern. *)
Lemma octets_mac n s :
  octets n s = true → String.length s + 1 = 3 * n ∧ all Chars.mac s = true.
Proof.
  revert s. induction n as [|n IH]; intros s; [done|].
  destruct s as [|a [|b [|c s]]]; cbn [octets]; try done.
  - intros [[Hn Ha]%andb_prop Hb]%andb_prop. apply Nat.eqb_eq in Hn as ->.
    split; [done|]. cbn [all]. unfold Chars.mac. fold (Chars.hex a) (Chars.hex b).
    by rewrite Ha, Hb.
  - intros [[[Ha Hb]%andb_prop Hc]%andb_prop Hs]%andb_prop.
    apply Ascii.eqb_eq in Hc as ->. destruct (IH _ Hs) as [Hlen Hall].
    split; [simpl; lia|]. cbn [all]. unfold Chars.mac at 1 2. fold (Chars.hex a) (Chars.hex b).
    by rewrite Ha, Hb, Hall.
Qed.

Lemma lease_line_octets_lease_line line ip hostname :
  lease_line_octets line ip hostname → lease_line line ip hostname.
Proof.
  intros (ts & mc & tl & Hline & Hts & Hdig & [Hlen Hmac]%octets_mac
          & Hip & Haddr & Hhost & Hns & Htl).
  exists ts, mc, tl. split_and!; try done; lia.
Qed.

Example kitchen_line_has_octets :
  lease_line_octets Sample.kitchen Sample.kitchen_ip "ESP-Kitchen".
Proof.
  exists "1234567890", "aa:bb:cc:dd:ee:ff", "". vm_compute.
  split_and!; try reflexivity; try lia. by left.
Qed.

Lemma startswith_spec s p : startswith s p = true ↔ ∃ r, s = p +:+ r.
Proof.
  unfold startswith. revert s.
  induction p as [|c p IH]; intros [|c' s]; simpl.
  - split; [by exists EmptyString|done].
  - split; [by exists (String c' s)|done].
  - split; [done|by intros [r Hr]].
  - destruct (Ascii.ascii_dec c c') as [->|Hne].
    + rewrite IH. split; intros [r Hr]; exists r.
      * rewrite Hr. reflexivity.
      * change (String c' s = String c' (p +:+ r)) in Hr. congruence.
    + split; [done|]. intros [r Hr].
      change (String c' s = String c (p +:+ r)) in Hr. congruence.
Qed.

(** ** The lease parser *)

#[global] Instance is_esp_dec e : Decision (is_esp e).
Proof.
  destruct (startswith e.2 "ESP-") eqn:E.
  - left. by apply startswith_spec.
  - right. intros H%startswith_spec. congruence.
Defined.

(** A request without [auth] argument, or with a pair or an empty tuple,
    is sent. *)
Lemma requests_sent world r s :
  default true (auth_ok <$> auth r) = true →
  requests world r s
  = match world (history s) r with
    | inl resp => (Returned resp, record s (Requested r))
    | inr e => (Raised (RequestException e), record s (Requested r))
    end.
Proof. intros H. unfold requests. by rewrite H. Qed.

Lemma for_line_in_well_formed lines entries acc s :
  Forall2 (λ line e, lease_line line e.1 e.2) lines entries →
  for_line_in (Text <$> lines) acc s = (Returned (acc ++ filter is_esp entries), s).
Proof.
  intros H. revert acc. induction H as [|line [ip h] lines entries Hl _ IH]; intros acc; simpl.
  - by rewrite app_nil_r.
  - rewrite (regex_complete _ _ _ Hl). rewrite filter_cons. cbn [fst snd].
    destruct (startswith h "ESP-") eqn:E.
    + rewrite IH. destruct (decide (is_esp (ip, h))) as [|n].
      * by rewrite <- app_assoc.
      * destruct n. by apply startswith_spec.
    + rewrite IH. destruct (decide (is_esp (ip, h))) as [e|]; [|done].
      apply startswith_spec in e. simpl in e. congruence.
Qed.

Lemma for_line_in_malformed lines acc s :
  Exists rejected lines →
  ∃ e, for_line_in lines acc s = (Raised e, s)
       ∧ (e = AttributeError ∨ e = TypeError)
       ∧ ((∀ b, Raw b ∉ lines) → e = AttributeError).
Proof.
  intros H. revert acc.
  induction H as [[line|b] lines Hbad|[line|b] lines _ IH]; intros acc; simpl.
  - rewrite (regex_rejects _ Hbad). exists AttributeError. auto.
  - exists TypeError. split_and!; auto. intros Hno. destruct (Hno b). by left.
  - destruct (regex_dnsmasq_leases line) as [[ip h]|].
    + destruct (startswith h "ESP-");
        [destruct (IH (acc ++ [(ip, h)])) as (e & -> & He & Htext)
        |destruct (IH acc) as (e & -> & He & Htext)].
      all: exists e; split_and!; auto; intros Hno; apply Htext; intros b Hb.
      all: apply (Hno b); by right.
    + exists AttributeError. auto.
  - exists TypeError. split_and!; auto. intros Hno. destruct (Hno b). by left.
Qed.

(** The parser loop leaves the state alone; it returns, or raises on a
    line. *)
Lemma for_line_in_outcome lines acc s :
  ∃ o, for_line_in lines acc s = (o, s)
       ∧ ((∃ ips, o = Returned ips) ∨ o = Raised AttributeError ∨ o = Raised TypeError).
Proof.
  revert acc. induction lines as [|[line|b] lines IH]; intros acc; simpl.
  - eexists. split; [done|]. left. by eexists.
  - destruct (regex_dnsmasq_leases line) as [[ip h]|].
    + destruct (startswith h "ESP-"); apply IH.
    + eexists. split; [done|]. auto.
  - eexists. split; [done|]. auto.
Qed.

(** C5 as the code has it.  When the response with the lease feed declares
    no encoding, [iter_lines(decode_unicode=True)] yields bytes, and the
    pattern, compiled from a [str], raises [TypeError] on the first line,
    well-formed or not: the parser returns no entry, and the run ends
    there. *)
Theorem undecoded_feed_raises_type_error (world : World) (config : Config) (fuel : nat)
    (disk : gmap string Archive) (resp : Response) (b : list Byte.byte)
    (rest : list feed_line) :
  world [] (lease_feed (uri_leases config)) = inl resp →
  ok resp = true →
  iter_lines resp = Raw b :: rest →
  get_ips_from_leases_live world (uri_leases config) (initial disk)
  = (Raised TypeError, record (initial disk) (Requested (lease_feed (uri_leases config))))
  ∧ main world config fuel (initial disk)
    = (Raised TypeError, record (initial disk) (Requested (lease_feed (uri_leases config)))).
Proof.
  intros Hnet Hok Hraw.
  assert (get_ips_from_leases_live world (uri_leases config) (initial disk)
          = (Raised TypeError,
             record (initial disk) (Requested (lease_feed (uri_leases config))))) as H.
  { unfold get_ips_from_leases_live, bind. rewrite requests_sent by done.
    cbn [history initial]. by rewrite Hnet, Hok, Hraw. }
  split; [done|]. unfold main, bind at 1. by rewrite H.
Qed.

(** X16.  For a lease feed that arrives as text and whose lines all follow
    the line grammar, the parser returns the (address, identifier) pairs of
    the lines whose identifier begins with [ESP-], in the order of the feed
    and with duplicates kept; the other entries leave no trace. *)
Theorem parser_keeps_esp_entries (world : World) (uri : string) (s : State)
    (resp : Response) (lines : list string) (entries : list (string * string)) :
  world (history s) (lease_feed uri) = inl resp →
  ok resp = true →
  iter_lines resp = Text <$> lines →
  Forall2 (λ line e, lease_line line e.1 e.2) lines entries →
  get_ips_from_leases_live world uri s
  = (Returned (filter is_esp entries), record s (Requested (lease_feed uri))).
Proof.
  intros Hnet Hok Htext Hlines.
  unfold get_ips_from_leases_live, bind. rewrite requests_sent by done.
  rewrite Hnet, Hok, Htext.
  by rewrite (for_line_in_well_formed _ _ _ _ Hlines).
Qed.

(** ** The work queue *)

Lemma list_remove_Some x l l' :
  list_remove x l = Some l' →
  ∃ l1 l2, l = l1 ++ x :: l2 ∧ l' = l1 ++ l2 ∧ (x ∉ l1).
Proof.
  revert l'. induction l as [|y l IH]; intros l' H; simpl in H; [done|].
  destruct (decide (y = x)) as [->|Hne].
  - simplify_eq. exists [], l'. split_and!; [done..|]. apply not_elem_of_nil.
  - destruct (list_remove x l) as [l0|] eqn:E; simplify_eq/=.
    destruct (IH _ eq_refl) as (l1 & l2 & -> & -> & Hnot).
    exists (y :: l1), l2. split_and!; [done..|].
    rewrite elem_of_cons. intros [?|?]; congruence.
Qed.

Lemma list_remove_elem x l : x ∈ l → is_Some (list_remove x l).
Proof.
  induction l as [|y l IH]; [by intros ?%elem_of_nil|].
  intros Hx. simpl. destruct (decide (y = x)); [by eexists|].
  apply elem_of_cons in Hx as [?|Hx]; [congruence|].
  destruct (IH Hx) as [l' ->]. by eexists.
Qed.

Lemma list_remove_length x l l' :
  list_remove x l = Some l' → length l = S (length l').
Proof.
  intros (l1 & l2 & -> & -> & _)%list_remove_Some.
  rewrite !length_app. simpl. lia.
Qed.

Lemma list_remove_subseteq x l l' : list_remove x l = Some l' → l' ⊆ l.
Proof.
  intros (l1 & l2 & -> & -> & _)%list_remove_Some y.
  rewrite !elem_of_app, elem_of_cons. tauto.
Qed.

Lemma list_remove_NoDup x l l' :
  NoDup l → list_remove x l = Some l' → NoDup l' ∧ (x ∉ l') ∧ (∀ y, y ∈ l ↔ y = x ∨ y ∈ l').
Proof.
  intros Hnd (l1 & l2 & -> & -> & H1)%list_remove_Some.
  apply NoDup_app in Hnd as (Hl1 & Hdisj & [Hx Hl2]%NoDup_cons).
  split_and!.
  - apply NoDup_app. split_and!; [done| |done].
    intros y Hy Hy'. apply (Hdisj y Hy). by right.
  - rewrite elem_of_app. tauto.
  - intros y. rewrite !elem_of_app, elem_of_cons. tauto.
Qed.

(** ** One iteration of the [for] loop *)

Section Iteration.

Variable world : World.
Variable config : Config.

(** The iteration, read off as a case analysis on the dictionary, the disk
    and the answer to the probe. *)
Lemma body_cases d ip s :
  body world config d ip s =
  match d !! ip with
  | None => (Raised (KeyError ip), s)
  | Some hostname =>
      let archive_filename := archive_name ip hostname in
      match files s !! archive_filename with
      | Some _ => todo_remove AlreadyDone ip s
      | None =>
          let s1 := record s (Requested (probe config ip)) in
          match world (history s) (probe config ip) with
          | inr e =>
              if is_ConnectTimeout e then (Returned tt, s1)
              else (Raised (RequestException e), s1)
          | inl r =>
              if ok r then
                if creates world archive_filename then
                  (for_filename_in world config DOWNLOAD_FILES ip archive_filename ;;;
                   todo_remove Downloaded ip)
                    (mkState (todo s) (<[archive_filename := []]> (files s)) (history s1))
                else (Raised OSError, s1)
              else todo_remove NotEspEasy ip s1
          end
      end
  end.
Proof.
  unfold body, bind at 1, getitem.
  destruct (d !! ip) as [hostname|] eqn:Hd; [|done]. cbn [ret].
  unfold bind at 1, os_path_exists. cbn [files].
  destruct (files s !! archive_name ip hostname) as [old|] eqn:Hf.
  - rewrite bool_decide_eq_true_2 by eauto. done.
  - rewrite bool_decide_eq_false_2 by (by intros [? ?]).
    unfold bind at 1, check_alive, try_except, bind at 1.
    rewrite requests_sent by done. unfold record.
    destruct (world (history s) (probe config ip)) as [r|e] eqn:Hn.
    + destruct (ok r) eqn:Hok; cbn [negb].
      * unfold ret at 1. unfold bind at 1, ZipFile. cbn [files todo history].
        rewrite Hf. by destruct (creates world (archive_name ip hostname)).
      * unfold bind at 1. unfold todo_remove at 1. cbn [todo files history].
        unfold todo_remove, record. cbn [todo files history].
        by destruct (list_remove ip (todo s)).
    + by destruct e.
Qed.

(** One step of the download loop: the credentials are looked at before
    anything is sent. *)
Lemma for_filename_in_cons f names ip a s :
  for_filename_in world config (f :: names) ip a s
  = if auth_ok (cfg_auth config) then
      match world (history s) (fetch config ip f) with
      | inl resp =>
          for_filename_in world config names ip a
            (mkState (todo s)
                     (<[a := default [] (files s !! a) ++ [(f, content resp)]]> (files s))
                     (history s ++ [Requested (fetch config ip f)]))
      | inr e => (Raised (RequestException e), record s (Requested (fetch config ip f)))
      end
    else (Raised TypeError, s).
Proof.
  cbn [for_filename_in]. unfold bind at 1, requests. cbn [fetch auth fmap option_fmap option_map default].
  destruct (auth_ok (cfg_auth config)); [|done].
  by destruct (world (history s) (fetch config ip f)).
Qed.

Lemma for_filename_in_effect names ip a s r s' :
  for_filename_in world config names ip a s = (r, s') →
  todo s' = todo s
  ∧ (∃ j, history s' = history s ++ ((Requested ∘ fetch config ip) <$> take j names))
  ∧ (∀ n, is_Some (files s !! n) → is_Some (files s' !! n))
  ∧ r ≠ Unfinished.
Proof.
  revert s. induction names as [|f names IH]; intros s H.
  - simpl in H. unfold ret in H. simplify_eq.
    split_and!; [done| |done..]. exists 0. by rewrite app_nil_r.
  - rewrite for_filename_in_cons in H.
    destruct (auth_ok (cfg_auth config)).
    2:{ simplify_eq. split_and!; [done| |done..]. exists 0. by rewrite app_nil_r. }
    destruct (world (history s) (fetch config ip f)) as [resp|e].
    + apply IH in H as (Ht & (j & Hh) & Hf & Hr). cbn [todo files history] in *.
      split_and!; [done| | |done].
      * exists (S j). by rewrite Hh, <- app_assoc.
      * intros n Hn. apply Hf.
        destruct (decide (a = n)) as [->|Hne].
        -- rewrite lookup_insert_eq. eauto.
        -- by rewrite lookup_insert_ne.
    + simplify_eq. cbn [todo files history].
      split_and!; [done| |done..]. by exists 1.
Qed.

(** A download loop that returns has asked for every name in turn, and has
    appended each answer to the archive under the name asked for. *)
Lemma for_filename_in_returned names ip a old s s' :
  files s !! a = Some old →
  for_filename_in world config names ip a s = (Returned tt, s') →
  ∃ rs : list Response,
    length rs = length names
    ∧ todo s' = todo s
    ∧ history s' = history s ++ ((Requested ∘ fetch config ip) <$> names)
    ∧ files s' = <[a := old ++ zip names (content <$> rs)]> (files s)
    ∧ ∀ k f r, names !! k = Some f → rs !! k = Some r →
        world (history s ++ ((Requested ∘ fetch config ip) <$> take k names))
            (fetch config ip f) = inl r.
Proof.
  revert s old. induction names as [|f names IH]; intros s old Hold H.
  - simpl in H. unfold ret in H. simplify_eq. exists [].
    split_and!; [done|done|by rewrite app_nil_r| |intros k f r Hk; by rewrite lookup_nil in Hk].
    rewrite app_nil_r. by rewrite insert_id.
  - rewrite for_filename_in_cons in H.
    destruct (auth_ok (cfg_auth config)); [|done].
    destruct (world (history s) (fetch config ip f)) as [resp|e] eqn:Hn; [|done].
    rewrite Hold in H. cbn [default] in H.
    eapply IH in H as (rs & Hlen & Ht & Hh & Hf & Hrs);
      [|cbn [files]; apply lookup_insert_eq].
    cbn [todo files history] in *.
    exists (resp :: rs). split_and!.
    + simpl. by rewrite Hlen.
    + done.
    + by rewrite Hh, <- app_assoc.
    + rewrite Hf, insert_insert_eq. by rewrite <- app_assoc.
    + intros [|k] f' r' Hk Hr; simplify_eq/=.
      * by rewrite app_nil_r.
      * specialize (Hrs k f' r' Hk Hr). by rewrite <- app_assoc in Hrs.
Qed.

(** The download loop as far as its requests are answered: after [k]
    answers the archive has [k] more entries and the loop goes on with the
    names that are left. *)
Lemma for_filename_in_run names ip a old s rs :
  auth_ok (cfg_auth config) = true →
  files s !! a = Some old →
  length rs ≤ length names →
  (∀ j f r, names !! j = Some f → rs !! j = Some r →
     world (history s ++ ((Requested ∘ fetch config ip) <$> take j names))
           (fetch config ip f) = inl r) →
  for_filename_in world config names ip a s
  = for_filename_in world config (drop (length rs) names) ip a
      (mkState (todo s)
               (<[a := old ++ zip (take (length rs) names) (content <$> rs)]> (files s))
               (history s ++ ((Requested ∘ fetch config ip) <$> take (length rs) names))).
Proof.
  intros Hauth. revert s old rs.
  induction names as [|f names IH]; intros s old [|r rs] Hold Hlen Hrs; simpl in Hlen.
  - simpl. rewrite !app_nil_r, insert_id by done. by destruct s.
  - lia.
  - cbn [length drop take zip zip_with fmap list_fmap].
    rewrite !app_nil_r, insert_id by done. by destruct s.
  - rewrite for_filename_in_cons, Hauth.
    pose proof (Hrs 0 f r eq_refl eq_refl) as H0. simpl in H0. rewrite app_nil_r in H0.
    rewrite H0, Hold. cbn [default].
    rewrite (IH _ (old ++ [(f, content r)]) rs); [|cbn [files]; apply lookup_insert_eq|lia|].
    + cbn [todo files history length drop take]. rewrite insert_insert_eq.
      by rewrite <- !app_assoc.
    + intros j f' r' Hj Hr'. cbn [history]. rewrite <- app_assoc.
      apply (Hrs (S j) f' r' Hj Hr').
Qed.

(** A download loop returns when the credentials are a pair or empty and
    no request of it raises. *)
Lemma for_filename_in_answered names ip a s :
  auth_ok (cfg_auth config) = true →
  (∀ h f, f ∈ names → ∃ r, world h (fetch config ip f) = inl r) →
  ∃ s', for_filename_in world config names ip a s = (Returned tt, s').
Proof.
  intros Hauth. revert s. induction names as [|f names IH]; intros s Hnet.
  - by eexists.
  - rewrite for_filename_in_cons, Hauth.
    destruct (Hnet (history s) f) as [r ->]; [by left|].
    apply IH. intros h f' Hf'. apply Hnet. by right.
Qed.

(** What one iteration does to the state, whatever its outcome: it sends
    requests to its own address only, and only when the archive is
    missing; it leaves the queue alone or takes its own address out of it
    once, as its last act; it deletes no file. *)
Lemma body_effect d ip s r s' :
  body world config d ip s = (r, s') →
  ∃ reqs tail,
    history s' = history s ++ (Requested <$> reqs) ++ tail
    ∧ Forall (λ rq, rq = probe config ip ∨ ∃ f, rq = fetch config ip f) reqs
    ∧ (reqs ≠ [] →
       ∃ hostname, d !! ip = Some hostname ∧ files s !! archive_name ip hostname = None)
    ∧ ((tail = [] ∧ todo s' = todo s)
       ∨ (∃ st, tail = [Removed st ip] ∧ list_remove ip (todo s) = Some (todo s')))
    ∧ (∀ n, is_Some (files s !! n) → is_Some (files s' !! n))
    ∧ r ≠ Unfinished.
Proof.
  rewrite body_cases. destruct (d !! ip) as [hostname|] eqn:Hd.
  2:{ intros [= <- <-]. exists [], []. rewrite !app_nil_r. split_and!; auto; done. }
  cbn zeta. destruct (files s !! archive_name ip hostname) as [old|] eqn:Hf.
  { unfold todo_remove. destruct (list_remove ip (todo s)) as [l|] eqn:Hl; intros [= <- <-].
    - exists [], [Removed AlreadyDone ip]. split_and!; eauto; done.
    - exists [], []. rewrite !app_nil_r. split_and!; auto; done. }
  destruct (world (history s) (probe config ip)) as [resp|e] eqn:Hn.
  - destruct (ok resp) eqn:Hok.
    + destruct (creates world (archive_name ip hostname)) eqn:Hcr.
      2:{ intros [= <- <-]. exists [probe config ip], []. cbn [todo files history record].
          split_and!; eauto; done. }
      unfold bind.
      destruct (for_filename_in _ _ _ _ _ _) as [r1 s1] eqn:Hloop.
      apply for_filename_in_effect in Hloop as (Ht & (j & Hh) & Hfs & Hr).
      cbn [todo files history record] in *.
      assert (∀ n, is_Some (files s !! n) → is_Some (files s1 !! n)) as Hmono.
      { intros n Hn'. apply Hfs. rewrite lookup_insert_ne; [done|].
        intros <-. rewrite Hf in Hn'. by destruct Hn'. }
      assert (Forall (λ rq, rq = probe config ip ∨ ∃ f, rq = fetch config ip f)
                (probe config ip :: (fetch config ip <$> take j DOWNLOAD_FILES))) as Hreqs.
      { constructor; [by left|]. apply Forall_fmap, Forall_forall. intros f _. right. by exists f. }
      assert (history s1 = history s
                ++ (Requested <$> probe config ip :: (fetch config ip <$> take j DOWNLOAD_FILES))) as Hh'.
      { rewrite Hh, <- app_assoc. simpl. by rewrite <- list_fmap_compose. }
      destruct r1 as [[]| |]; [|intros [= <- <-]..].
      * unfold todo_remove. rewrite Ht.
        destruct (list_remove ip (todo s)) as [l|] eqn:Hl; intros [= <- <-].
        -- eexists _, [Removed Downloaded ip]. cbn [todo files history].
           rewrite Hh', <- app_assoc. split_and!; eauto; done.
        -- eexists _, []. rewrite app_nil_r. split_and!; eauto; done.
      * eexists _, []. rewrite app_nil_r. split_and!; eauto; done.
      * done.
    + unfold todo_remove, record. cbn [todo files history].
      destruct (list_remove ip (todo s)) as [l|] eqn:Hl; intros [= <- <-].
      * exists [probe config ip], [Removed NotEspEasy ip]. cbn [todo files history].
        rewrite <- app_assoc. split_and!; eauto; done.
      * exists [probe config ip], []. cbn [todo files history].
        split_and!; eauto; done.
  - destruct (is_ConnectTimeout e); intros [= <- <-].
    all: exists [probe config ip], []; cbn [todo files history record].
    all: split_and!; eauto; done.
Qed.

Lemma body_length d ip s :
  length (todo (body world config d ip s).2) ≤ length (todo s).
Proof.
  destruct (body world config d ip s) as [r s'] eqn:H. simpl.
  apply body_effect in H as (_ & _ & _ & _ & _ & [[_ Ht]|(_ & _ & Hl)] & _ & _).
  - by rewrite Ht.
  - apply list_remove_length in Hl. lia.
Qed.

(** ** The loops *)

(** A property that every iteration keeps holds along the whole [for]
    loop. *)
Lemma for_ip_in_todo_invariant (P : State → Prop) d :
  (∀ ip s, P s → ip ∈ todo s → P (body world config d ip s).2) →
  ∀ n i s, P s → P (for_ip_in_todo world config n d i s).2.
Proof.
  intros Hbody n. induction n as [|n IH]; intros i s HP; simpl.
  - by destruct (todo s !! i).
  - destruct (todo s !! i) as [ip|] eqn:Hi; [|done].
    unfold bind. specialize (Hbody ip s HP (list_elem_of_lookup_2 _ _ _ Hi)).
    destruct (body world config d ip s) as [[[]| |] s1]; simpl in *; auto.
Qed.

Lemma pass_invariant (P : State → Prop) d :
  (∀ ip s, P s → ip ∈ todo s → P (body world config d ip s).2) →
  (∀ s, P s → P (record s (Slept 15))) →
  ∀ s, P s → P (pass world config d s).2.
Proof.
  intros Hbody Hsleep s HP. unfold pass, bind.
  pose proof (for_ip_in_todo_invariant P d Hbody (length (todo s)) 0 s HP) as H.
  destruct (for_ip_in_todo _ _ _ _ _ _) as [[[]| |] s1]; simpl in *; [|done..].
  by apply Hsleep in H.
Qed.

Lemma while_todo_invariant (P : State → Prop) d :
  (∀ ip s, P s → ip ∈ todo s → P (body world config d ip s).2) →
  (∀ s, P s → P (record s (Slept 15))) →
  ∀ fuel s, P s → P (while_todo world config fuel d s).2.
Proof.
  intros Hbody Hsleep fuel. induction fuel as [|fuel IH]; intros s HP; simpl.
  - by destruct (0 <? length (todo s))%nat.
  - destruct (0 <? length (todo s))%nat; [|done].
    unfold bind. pose proof (pass_invariant P d Hbody Hsleep s HP) as H.
    destruct (pass world config d s) as [[[]| |] s1]; simpl in *; auto.
Qed.

(** The [for] loop needs no more steps than the queue is long. *)
Lemma for_ip_in_todo_finishes d n i s :
  length (todo s) ≤ n + i → (for_ip_in_todo world config n d i s).1 ≠ Unfinished.
Proof.
  revert i s. induction n as [|n IH]; intros i s Hlen; simpl.
  - destruct (todo s !! i) eqn:Hi; [|done]. apply lookup_lt_Some in Hi. lia.
  - destruct (todo s !! i) as [ip|] eqn:Hi; [|done].
    unfold bind. pose proof (body_length d ip s) as Hl.
    destruct (body world config d ip s) as [r s1] eqn:Hb.
    apply body_effect in Hb as (_ & _ & _ & _ & _ & _ & _ & Hr).
    destruct r as [[]| |]; simpl in *; [|done..].
    apply IH. lia.
Qed.

Lemma pass_finishes d s : (pass world config d s).1 ≠ Unfinished.
Proof.
  unfold pass, bind.
  pose proof (for_ip_in_todo_finishes d (length (todo s)) 0 s ltac:(lia)) as H.
  by destruct (for_ip_in_todo _ _ _ _ _ _) as [[[]| |] s1].
Qed.

End Iteration.

(** C8, as the code has it.  When the lease feed was fetched with success
    and one of its lines is outside the line grammar of the pattern (or
    arrives undecoded), the parser raises on the first such line, whatever
    its identifier: [AttributeError] when the lines are text.  Since [main]
    has no handler the run ends there: nothing was queued, probed or
    written. *)
Theorem malformed_line_aborts_run (world : World) (config : Config) (fuel : nat)
    (disk : gmap string Archive) (resp : Response) :
  world [] (lease_feed (uri_leases config)) = inl resp →
  ok resp = true →
  Exists rejected (iter_lines resp) →
  ∃ e,
    (e = AttributeError ∨ e = TypeError)
    ∧ ((∀ b, Raw b ∉ iter_lines resp) → e = AttributeError)
    ∧ get_ips_from_leases_live world (uri_leases config) (initial disk)
      = (Raised e, record (initial disk) (Requested (lease_feed (uri_leases config))))
    ∧ main world config fuel (initial disk)
      = (Raised e, record (initial disk) (Requested (lease_feed (uri_leases config)))).
Proof.
  intros Hnet Hok Hbad.
  destruct (for_line_in_malformed (iter_lines resp) []
              (record (initial disk) (Requested (lease_feed (uri_leases config)))) Hbad)
    as (e & Hrun & He & Htext).
  assert (get_ips_from_leases_live world (uri_leases config) (initial disk)
          = (Raised e,
             record (initial disk) (Requested (lease_feed (uri_leases config))))) as H.
  { unfold get_ips_from_leases_live, bind. rewrite requests_sent by done.
    cbn [history initial]. by rewrite Hnet, Hok, Hrun. }
  exists e. split_and!; [done..|]. unfold main, bind at 1. by rewrite H.
Qed.

(** C10.  When the request for the lease feed is answered without success,
    the parser returns the empty list without raising, the queue is empty,
    and [main] returns 0 at once, for any bound on the number of passes: the
    only request of the run is the one for the feed and the disk is
    untouched. *)
Theorem failed_lease_request_ends_run (world : World) (config : Config) (fuel : nat)
    (disk : gmap string Archive) (resp : Response) :
  world [] (lease_feed (uri_leases config)) = inl resp →
  ok resp = false →
  get_ips_from_leases_live world (uri_leases config) (initial disk)
  = (Returned [], record (initial disk) (Requested (lease_feed (uri_leases config))))
  ∧ main world config fuel (initial disk)
    = (Returned 0%Z,
       mkState [] disk [Requested (lease_feed (uri_leases config))]).
Proof.
  intros Hnet Hok.
  assert (get_ips_from_leases_live world (uri_leases config) (initial disk)
          = (Returned [],
             record (initial disk) (Requested (lease_feed (uri_leases config))))) as H.
  { unfold get_ips_from_leases_live, bind. rewrite requests_sent by done.
    cbn [history initial]. by rewrite Hnet, Hok. }
  split; [done|]. unfold main, bind at 1. rewrite H.
  unfold bind, set_todo. cbn. by destruct fuel.
Qed.

(** ** What the parser returns *)

Lemma for_line_in_addresses lines acc s ips s' :
  for_line_in lines acc s = (Returned ips, s') →
  Forall (λ e, all Chars.addr e.1 = true) acc →
  s' = s ∧ Forall (λ e, all Chars.addr e.1 = true) ips.
Proof.
  revert acc. induction lines as [|[line|b] lines IH]; intros acc H Hacc; simpl in H.
  - unfold ret in H. by simplify_eq.
  - destruct (regex_dnsmasq_leases line) as [[ip h]|] eqn:E; [|done].
    apply regex_sound in E as (ts & mc & tl & _ & _ & _ & _ & _ & _ & Hip & _).
    destruct (startswith h "ESP-"); apply IH in H; try done.
    apply Forall_app. split; [done|]. by constructor.
  - done.
Qed.

Lemma get_ips_from_leases_live_effect world uri s ips s' :
  get_ips_from_leases_live world uri s = (Returned ips, s') →
  s' = record s (Requested (lease_feed uri))
  ∧ Forall (λ e, all Chars.addr e.1 = true) ips.
Proof.
  unfold get_ips_from_leases_live, bind. rewrite requests_sent by done.
  destruct (world (history s) (lease_feed uri)) as [resp|e]; [|done].
  destruct (ok resp).
  - intros H. by apply for_line_in_addresses in H as [-> H].
  - unfold ret. intros [= <- <-]. split; [done|]. constructor.
Qed.

Lemma dict_lookup (pairs : list (string * string)) k v :
  dict pairs !! k = Some v → (k, v) ∈ pairs.
Proof.
  unfold dict. induction pairs as [|[k' v'] pairs IH] using rev_ind; simpl.
  - by rewrite lookup_empty.
  - rewrite foldl_app. simpl. rewrite lookup_insert.
    case_decide as Hk; simplify_eq.
    + intros [= ->]. apply elem_of_app. right. by left.
    + intros H. apply elem_of_app. left. by apply IH.
Qed.

(** [main], once the lease feed has been read. *)
Lemma main_cases world config fuel s :
  main world config fuel s =
  match get_ips_from_leases_live world (uri_leases config) s with
  | (Returned ips_hostnames, s1) =>
      match while_todo world config fuel (dict ips_hostnames)
              (mkState (ips_hostnames.*1) (files s1) (history s1)) with
      | (Returned _, s2) => (Returned 0%Z, s2)
      | (Raised e, s2) => (Raised e, s2)
      | (Unfinished, s2) => (Unfinished, s2)
      end
  | (Raised e, s1) => (Raised e, s1)
  | (Unfinished, s1) => (Unfinished, s1)
  end.
Proof.
  unfold main, bind at 1.
  destruct (get_ips_from_leases_live _ _ _) as [[ips| |] s1]; [|done..].
  unfold bind at 1, set_todo. unfold bind, ret.
  by destruct (while_todo _ _ _ _ _) as [[[]| |] s2].
Qed.

(** ** Exceptions that nothing handles *)

Section Uncaught.

Variable world : World.
Variable config : Config.

Lemma caught_dec r e : caught r e ∨ ¬ caught r e.
Proof.
  unfold caught. destruct (meth r), e; try (by left); right; by intros [? ?].
Qed.

Lemma all_caught_last {A} (o : outcome A) h :
  all_caught world h → uncaught_last world o h.
Proof. intros H j r e Hj Hw Hn. destruct Hn. eauto. Qed.

Lemma uncaught_last_all {A} (o : outcome A) h :
  uncaught_last world o h → (∀ e, o ≠ Raised (RequestException e)) →
  all_caught world h.
Proof.
  intros H Ho j r e Hj Hw. destruct (caught_dec r e) as [|Hn]; [done|].
  destruct (H j r e Hj Hw Hn) as [-> _]. by destruct (Ho e).
Qed.

Lemma all_caught_nil : all_caught world [].
Proof. intros j r e Hj. by rewrite lookup_nil in Hj. Qed.

Lemma all_caught_event h ev :
  (∀ r, ev ≠ Requested r) → all_caught world h → all_caught world (h ++ [ev]).
Proof.
  intros Hev H j r e Hj Hw.
  destruct (decide (j < length h)) as [Hlt|Hge].
  - rewrite lookup_app_l in Hj by done. rewrite take_app_le in Hw by lia. eauto.
  - apply lookup_lt_Some in Hj as Hlen. rewrite length_app in Hlen. simpl in Hlen.
    assert (j = length h) as -> by lia.
    rewrite list_lookup_middle in Hj by done. simplify_eq. by destruct (Hev r).
Qed.

Lemma all_caught_request h r :
  (∀ e, world h r = inr e → caught r e) →
  all_caught world h → all_caught world (h ++ [Requested r]).
Proof.
  intros Hr H j r' e Hj Hw.
  destruct (decide (j < length h)) as [Hlt|Hge].
  - rewrite lookup_app_l in Hj by done. rewrite take_app_le in Hw by lia. eauto.
  - apply lookup_lt_Some in Hj as Hlen. rewrite length_app in Hlen. simpl in Hlen.
    assert (j = length h) as -> by lia.
    rewrite list_lookup_middle in Hj by done. rewrite take_app_length in Hw.
    simplify_eq. eauto.
Qed.

Lemma uncaught_last_request {A} h r e :
  world h r = inr e → all_caught world h →
  uncaught_last world (@Raised A (RequestException e)) (h ++ [Requested r]).
Proof.
  intros Hr H j r' e' Hj Hw Hn.
  destruct (decide (j < length h)) as [Hlt|Hge].
  - rewrite lookup_app_l in Hj by done. rewrite take_app_le in Hw by lia.
    destruct Hn. eauto.
  - apply lookup_lt_Some in Hj as Hlen. rewrite length_app in Hlen. simpl in Hlen.
    assert (j = length h) as -> by lia.
    rewrite list_lookup_middle in Hj by done. rewrite take_app_length in Hw.
    injection Hj as <-. rewrite Hr in Hw. injection Hw as <-.
    rewrite length_app. simpl. split; [done|lia].
Qed.

Lemma uncaught_last_todo_remove st ip s :
  all_caught world (history s) →
  uncaught_last world (todo_remove st ip s).1 (history (todo_remove st ip s).2).
Proof.
  intros H. apply all_caught_last. unfold todo_remove.
  destruct (list_remove ip (todo s)); [|done].
  cbn [snd history]. by apply all_caught_event.
Qed.

Lemma uncaught_last_for_filename_in names ip a s :
  all_caught world (history s) →
  uncaught_last world (for_filename_in world config names ip a s).1
                (history (for_filename_in world config names ip a s).2)
  ∧ ((for_filename_in world config names ip a s).1 = Returned tt →
     all_caught world (history (for_filename_in world config names ip a s).2)).
Proof.
  revert s. induction names as [|f names IH]; intros s H.
  - split; [by apply all_caught_last|done].
  - rewrite for_filename_in_cons.
    destruct (auth_ok (cfg_auth config)); [|split; [by apply all_caught_last|done]].
    destruct (world (history s) (fetch config ip f)) as [resp|e] eqn:Hw.
    + apply IH. cbn [history]. apply all_caught_request; [|done]. by rewrite Hw.
    + split; [|done]. by apply uncaught_last_request.
Qed.

(** An iteration that starts with every exception caught so far ends with
    an uncaught one, raised by its last request, or with none. *)
Lemma uncaught_last_body d ip s :
  all_caught world (history s) →
  uncaught_last world (body world config d ip s).1 (history (body world config d ip s).2).
Proof.
  intros H. rewrite body_cases. destruct (d !! ip) as [hostname|]; [|by apply all_caught_last].
  cbn zeta. destruct (files s !! archive_name ip hostname).
  { by apply uncaught_last_todo_remove. }
  destruct (world (history s) (probe config ip)) as [resp|e] eqn:Hw.
  - assert (all_caught world (history (record s (Requested (probe config ip))))) as H1.
    { cbn [record history]. apply all_caught_request; [|done]. by rewrite Hw. }
    destruct (ok resp).
    + destruct (creates world (archive_name ip hostname)); [|by apply all_caught_last].
      unfold bind.
      match goal with
      | |- context [for_filename_in world config ?ns ip ?a ?s0] =>
          destruct (uncaught_last_for_filename_in ns ip a s0 H1) as [Hl Hr];
          destruct (for_filename_in world config ns ip a s0) as [[[]| |] s1]
      end; [|done..].
      apply uncaught_last_todo_remove. by apply Hr.
    + by apply uncaught_last_todo_remove.
  - destruct (is_ConnectTimeout e) eqn:He.
    + apply all_caught_last. cbn [snd record history].
      apply all_caught_request; [|done]. intros e' He'. rewrite Hw in He'.
      simplify_eq. by destruct e'.
    + cbn [fst snd record history]. by apply uncaught_last_request.
Qed.

Lemma uncaught_last_for_ip_in_todo d n i s :
  all_caught world (history s) →
  uncaught_last world (for_ip_in_todo world config n d i s).1
                (history (for_ip_in_todo world config n d i s).2).
Proof.
  revert i s. induction n as [|n IH]; intros i s H; simpl.
  - destruct (todo s !! i); by apply all_caught_last.
  - destruct (todo s !! i) as [ip|]; [|by apply all_caught_last].
    unfold bind. pose proof (uncaught_last_body d ip s H) as Hb.
    destruct (body world config d ip s) as [[[]| |] s1]; [|done..].
    apply IH. by eapply uncaught_last_all.
Qed.

Lemma uncaught_last_pass d s :
  all_caught world (history s) →
  uncaught_last world (pass world config d s).1 (history (pass world config d s).2).
Proof.
  intros H. unfold pass, bind.
  pose proof (uncaught_last_for_ip_in_todo d (length (todo s)) 0 s H) as Hf.
  destruct (for_ip_in_todo world config _ d 0 s) as [[[]| |] s1]; [|done..].
  apply all_caught_last. unfold time_sleep. cbn [snd history].
  apply all_caught_event; [done|]. by eapply uncaught_last_all.
Qed.

Lemma uncaught_last_while_todo d fuel s :
  all_caught world (history s) →
  uncaught_last world (while_todo world config fuel d s).1
                (history (while_todo world config fuel d s).2).
Proof.
  revert s. induction fuel as [|fuel IH]; intros s H; simpl.
  - destruct (0 <? length (todo s))%nat; by apply all_caught_last.
  - destruct (0 <? length (todo s))%nat; [|by apply all_caught_last].
    unfold bind. pose proof (uncaught_last_pass d s H) as Hp.
    destruct (pass world config d s) as [[[]| |] s1]; [|done..].
    apply IH. by eapply uncaught_last_all.
Qed.

(** The parser sends the request for the feed and does nothing else: it
    raises what the request raises, or raises on a line, or returns. *)
Lemma get_ips_from_leases_live_cases uri s :
  let r := get_ips_from_leases_live world uri s in
  r.2 = record s (Requested (lease_feed uri))
  ∧ match world (history s) (lease_feed uri) with
    | inr e => r.1 = Raised (RequestException e)
    | inl _ => (∃ ips, r.1 = Returned ips)
               ∨ r.1 = Raised AttributeError ∨ r.1 = Raised TypeError
    end.
Proof.
  unfold get_ips_from_leases_live, bind. rewrite requests_sent by done.
  destruct (world (history s) (lease_feed uri)) as [resp|e]; [|done].
  destruct (ok resp).
  - destruct (for_line_in_outcome (iter_lines resp) []
                (record s (Requested (lease_feed uri)))) as (o & -> & Ho). done.
  - split; [done|]. left. by eexists.
Qed.

(** A request of a run which the world answers with an exception, other
    than a probe that times out while connecting, is the last thing the
    run does: [main] ends with that exception. *)
Lemma uncaught_exception_ends_run fuel disk :
  uncaught_last world (main world config fuel (initial disk)).1
                (history (main world config fuel (initial disk)).2).
Proof.
  rewrite main_cases.
  destruct (get_ips_from_leases_live_cases (uri_leases config) (initial disk)) as [Hs Ho].
  destruct (get_ips_from_leases_live world (uri_leases config) (initial disk))
    as [o s1]. cbn [fst snd] in Hs, Ho. subst s1. cbn [initial history] in Ho.
  destruct (world [] (lease_feed (uri_leases config))) as [resp|e] eqn:Hw.
  2:{ subst o. cbn [fst snd record history initial].
      apply (uncaught_last_request []); [done|apply all_caught_nil]. }
  assert (all_caught world [Requested (lease_feed (uri_leases config))]) as H1.
  { apply (all_caught_request []); [|apply all_caught_nil]. by rewrite Hw. }
  destruct Ho as [[ips ->]|[->| ->]]; [|by apply all_caught_last..].
  cbn [record initial files history todo app].
  pose proof (uncaught_last_while_todo (dict ips) fuel
                (mkState (ips.*1) disk [Requested (lease_feed (uri_leases config))])
                H1) as Hloop.
  destruct (while_todo _ _ _ _ _) as [[[]|x|] s2]; cbn [fst snd] in *.
  - apply all_caught_last. by eapply uncaught_last_all.
  - intros j r e Hj Hw' Hn. by destruct (Hloop j r e Hj Hw' Hn) as [[= ->] ?].
  - intros j r e Hj Hw' Hn. by destruct (Hloop j r e Hj Hw' Hn) as [[=] ?].
Qed.

(** A run that comes to send a request which the world answers with an
    exception that is not caught ends there, with that exception. *)
Lemma uncaught_request_ends_run fuel disk h r e :
  world h r = inr e → ¬ caught r e →
  (h ++ [Requested r]) `prefix_of` history (main world config fuel (initial disk)).2 →
  (main world config fuel (initial disk)).1 = Raised (RequestException e)
  ∧ history (main world config fuel (initial disk)).2 = h ++ [Requested r].
Proof.
  intros Hw Hn Hpre. pose proof (uncaught_exception_ends_run fuel disk) as H.
  destruct (H (length h) r e) as [Ho Hlen]; [| |done|].
  - eapply prefix_lookup_Some; [|done]. by apply list_lookup_middle.
  - destruct Hpre as [k ->]. rewrite <- app_assoc. by rewrite take_app_length.
  - split; [done|]. symmetry. apply prefix_length_eq; [done|].
    rewrite length_app. simpl. lia.
Qed.

End Uncaught.

(** ** The probe *)

(** C2, as the code has it.  Of the exceptions the probe can raise, the
    handler takes [ConnectTimeout] alone: the iteration then ends with the
    queue and the disk as they were, the request being the only thing that
    happened, and the [for] loop goes on with the next index.  Any other
    exception of the probe leaves the iteration and the [for] loop, and
    nothing catches it: a run of [main] that comes to this probe ends
    with the exception, the probe being the last thing it did. *)
Theorem connect_timeout_keeps_target (world : World) (config : Config)
    (d : gmap string string) (ip hostname : string) (s : State) (e : request_exception) :
  d !! ip = Some hostname →
  files s !! archive_name ip hostname = None →
  world (history s) (probe config ip) = inr e →
  (e = ConnectTimeout →
     body world config d ip s = (Returned tt, record s (Requested (probe config ip)))
     ∧ ∀ n i, todo s !! i = Some ip →
         for_ip_in_todo world config (S n) d i s
         = for_ip_in_todo world config n d (S i) (record s (Requested (probe config ip))))
  ∧ (e ≠ ConnectTimeout →
     body world config d ip s
     = (Raised (RequestException e), record s (Requested (probe config ip)))
     ∧ (∀ n i, todo s !! i = Some ip →
          for_ip_in_todo world config (S n) d i s
          = (Raised (RequestException e), record s (Requested (probe config ip))))
     ∧ ∀ fuel disk,
         history (record s (Requested (probe config ip)))
           `prefix_of` history (main world config fuel (initial disk)).2 →
         (main world config fuel (initial disk)).1 = Raised (RequestException e)
         ∧ history (main world config fuel (initial disk)).2
           = history (record s (Requested (probe config ip)))).
Proof.
  intros Hd Hf Hnet.
  assert (body world config d ip s
          = if is_ConnectTimeout e
            then (Returned tt, record s (Requested (probe config ip)))
            else (Raised (RequestException e), record s (Requested (probe config ip)))) as Hb.
  { rewrite body_cases, Hd. cbn zeta. by rewrite Hf, Hnet. }
  split.
  - intros ->. split; [done|]. intros n i Hi.
    cbn [for_ip_in_todo]. rewrite Hi. unfold bind. by rewrite Hb.
  - intros Hne.
    assert (is_ConnectTimeout e = false) as Hno by (by destruct e).
    rewrite Hno in Hb. split_and!; [done| |].
    + intros n i Hi. cbn [for_ip_in_todo]. rewrite Hi. unfold bind. by rewrite Hb.
    + intros fuel disk. cbn [record history].
      apply uncaught_request_ends_run; [done|]. by intros [_ ?].
Qed.

(** ** The download *)


(** C6.  An iteration that ended at line 179 found no archive, and leaves
    on disk, under the name made of the address with dashes for dots, an
    underscore, the identifier and [.zip], exactly one entry per resource of
    the manifest, in manifest order: the entry is named as the resource is in
    the URL requested, and holds the content of the answer to that request,
    whatever the [ok] of the answer. *)
Theorem archive_holds_manifest (world : World) (config : Config)
    (d : gmap string string) (ip : string) (s s' : State) :
  body world config d ip s = (Returned tt, s') →
  last (history s') = Some (Removed Downloaded ip) →
  ∃ (hostname : string) (rs : list Response),
    d !! ip = Some hostname
    ∧ archive_name ip hostname = replace "."%char "-"%char ip +:+ "_" +:+ hostname +:+ ".zip"
    ∧ files s !! archive_name ip hostname = None
    ∧ files s' = <[archive_name ip hostname := zip DOWNLOAD_FILES (content <$> rs)]> (files s)
    ∧ length rs = length DOWNLOAD_FILES
    ∧ ∀ k f r, DOWNLOAD_FILES !! k = Some f → rs !! k = Some r →
        url (fetch config ip f) = "http://" +:+ ip +:+ "/" +:+ f
        ∧ world (history s ++ Requested (probe config ip)
                 :: ((Requested ∘ fetch config ip) <$> take k DOWNLOAD_FILES))
              (fetch config ip f) = inl r.
Proof.
  rewrite body_cases. destruct (d !! ip) as [hostname|] eqn:Hd; [|done].
  cbn zeta. destruct (files s !! archive_name ip hostname) as [old|] eqn:Hf.
  { unfold todo_remove. destruct (list_remove ip (todo s)); [|done].
    intros [= <-]. cbn [history]. by rewrite last_snoc. }
  destruct (world (history s) (probe config ip)) as [resp|e] eqn:Hnet.
  2:{ destruct (is_ConnectTimeout e); [|done].
      intros [= <-]. cbn [history record]. by rewrite last_snoc. }
  destruct (ok resp) eqn:Hok.
  2:{ unfold todo_remove. destruct (list_remove ip _); [|done].
      intros [= <-]. cbn [history]. by rewrite last_snoc. }
  destruct (creates world (archive_name ip hostname)); [|done].
  unfold bind.
  destruct (for_filename_in _ _ _ _ _ _) as [[[]| |] s1] eqn:Hloop; [|done..].
  eapply for_filename_in_returned in Hloop as (rs & Hlen & Ht & Hh & Hfs & Hrs);
    [|apply lookup_insert_eq].
  unfold todo_remove. destruct (list_remove ip (todo s1)); [|done].
  intros [= <-] _. cbn [todo files history record] in *.
  exists hostname, rs. split_and!; [done..| | |].
  - by rewrite Hfs, insert_insert_eq.
  - done.
  - intros k f r Hk Hr. split; [done|].
    specialize (Hrs k f r Hk Hr). by rewrite <- app_assoc in Hrs.
Qed.

(** ** Addresses and URLs *)

Lemma addr_no_slash c : Chars.addr c = true → negb (Chars.slash c) = true.
Proof. destruct c as [[] [] [] [] [] [] [] []]; by vm_compute. Qed.

Lemma all_impl (p q : ascii → bool) s :
  (∀ c, p c = true → q c = true) → all p s = true → all q s = true.
Proof.
  intros Hpq. induction s as [|c s IH]; simpl; [done|].
  intros [Hc Hs]%andb_prop. by rewrite (Hpq _ Hc), IH.
Qed.

Lemma addr_slashless ip : all Chars.addr ip = true → slashless ip.
Proof. apply all_impl, addr_no_slash. Qed.

(** Two addresses without [/] that give the same URL are the same. *)
Lemma host_inj a b p q :
  slashless a → slashless b → a +:+ "/" +:+ p = b +:+ "/" +:+ q → a = b.
Proof.
  unfold slashless. revert b.
  induction a as [|c a IH]; intros [|c' b]; simpl; [done| | |].
  - intros _ [Hc _]%andb_prop [= <- _]. by vm_compute in Hc.
  - intros [Hc _]%andb_prop _ [= -> _]. by vm_compute in Hc.
  - intros [_ Ha]%andb_prop [_ Hb]%andb_prop [= -> Heq]. f_equal. by apply IH.
Qed.

Section Contacts.

Variable config : Config.

Lemma contacts_probe ip0 ip :
  slashless ip0 → slashless ip → contacts ip0 (Requested (probe config ip)) → ip = ip0.
Proof.
  intros H0 H (r & path & [= <-] & Hurl). simpl in Hurl.
  injection Hurl as Hurl. by apply host_inj in Hurl.
Qed.

Lemma contacts_fetch ip0 ip f :
  slashless ip0 → slashless ip → contacts ip0 (Requested (fetch config ip f)) → ip = ip0.
Proof.
  intros H0 H (r & path & [= <-] & Hurl). simpl in Hurl.
  injection Hurl as Hurl. by apply host_inj in Hurl.
Qed.

End Contacts.

(** ** Targets whose archive exists *)

Section Skip.

Variable world : World.
Variable config : Config.
Variable d : gmap string string.
Variable ip0 hostname0 : string.
Hypothesis Hd : d !! ip0 = Some hostname0.
Hypothesis Hip0 : slashless ip0.

Lemma untouched_body h0 ip s :
  untouched ip0 hostname0 h0 s → ip ∈ todo s →
  untouched ip0 hostname0 h0 (body world config d ip s).2.
Proof.
  intros (Hfile & Hq & evs & Hh & Hevs) Hin.
  destruct (body world config d ip s) as [r s'] eqn:Hb. simpl.
  apply body_effect in Hb as (reqs & tail & Hh' & Hreqs & Hne & Hcases & Hmono & _).
  assert (slashless ip) as Hip by (by eapply Forall_forall in Hq).
  split_and!.
  - by apply Hmono.
  - destruct Hcases as [[_ ->]|(st & _ & Hl)]; [done|].
    apply list_remove_subseteq in Hl. rewrite Forall_forall in Hq |- *.
    intros x Hx. by apply Hq, Hl.
  - exists (evs ++ (Requested <$> reqs) ++ tail). split.
    { by rewrite Hh', Hh, <- app_assoc. }
    rewrite !Forall_app. split_and!; [done| |].
    + destruct reqs as [|rq reqs]; [constructor|].
      destruct Hne as (hostname & Hd' & Hnone); [done|].
      assert (ip ≠ ip0) as Hneq.
      { intros ->. rewrite Hd in Hd'. simplify_eq.
        rewrite Hnone in Hfile. by destruct Hfile. }
      apply Forall_fmap. eapply Forall_impl; [exact Hreqs|].
      intros rq' [->|[f ->]] Hc; simpl in Hc.
      * by apply contacts_probe in Hc.
      * by apply contacts_fetch in Hc.
    + destruct Hcases as [[-> _]|(st & -> & _)]; [constructor|].
      constructor; [|constructor]. by intros (r' & path & ? & _).
Qed.

Lemma untouched_sleep h0 s :
  untouched ip0 hostname0 h0 s → untouched ip0 hostname0 h0 (record s (Slept 15)).
Proof.
  intros (Hfile & Hq & evs & Hh & Hevs). split_and!; [done..|].
  exists (evs ++ [Slept 15]). simpl. split; [by rewrite Hh, <- app_assoc|].
  apply Forall_app. split; [done|].
  constructor; [|constructor]. by intros (r' & path & ? & _).
Qed.

Lemma untouched_while fuel h0 s :
  untouched ip0 hostname0 h0 s →
  untouched ip0 hostname0 h0 (while_todo world config fuel d s).2.
Proof.
  apply (while_todo_invariant world config (untouched ip0 hostname0 h0)).
  - intros ip s0. apply untouched_body.
  - intros s0. apply untouched_sleep.
Qed.

End Skip.


(** ** Removals from the queue *)

Lemma removals_app ip h1 h2 : removals ip (h1 ++ h2) = removals ip h1 + removals ip h2.
Proof. unfold removals. by rewrite filter_app, length_app. Qed.

Lemma removals_requests ip reqs : removals ip (Requested <$> reqs) = 0.
Proof.
  unfold removals. induction reqs as [|rq reqs IH]; [done|].
  rewrite fmap_cons, filter_cons. by destruct (decide _).
Qed.

Lemma removals_removed ip st ip' :
  removals ip [Removed st ip'] = if decide (ip' = ip) then 1 else 0.
Proof.
  unfold removals. rewrite filter_cons. simpl.
  destruct (decide (ip' = ip)) as [->|Hne].
  - by rewrite bool_decide_eq_true_2.
  - by rewrite bool_decide_eq_false_2.
Qed.

Section Removal.

Variable world : World.
Variable config : Config.
Variable d : gmap string string.

(** When an iteration changes the queue, it removes its own address, under
    one of three conditions that exclude one another. *)
Lemma removal_conditions ip s r s' :
  body world config d ip s = (r, s') →
  todo s' ≠ todo s →
  ∃ hostname,
    d !! ip = Some hostname
    ∧ list_remove ip (todo s) = Some (todo s')
    ∧ ((is_Some (files s !! archive_name ip hostname)
        ∧ history s' = history s ++ [Removed AlreadyDone ip])
       ∨ (files s !! archive_name ip hostname = None
          ∧ ∃ resp, world (history s) (probe config ip) = inl resp ∧ ok resp = false
            ∧ history s' = history s
                ++ [Requested (probe config ip); Removed NotEspEasy ip])
       ∨ (files s !! archive_name ip hostname = None
          ∧ ∃ resp, world (history s) (probe config ip) = inl resp ∧ ok resp = true
            ∧ history s' = history s ++ [Requested (probe config ip)]
                ++ ((Requested ∘ fetch config ip) <$> DOWNLOAD_FILES)
                ++ [Removed Downloaded ip])).
Proof.
  rewrite body_cases. destruct (d !! ip) as [hostname|] eqn:Hd; [|by intros [= <- <-]].
  cbn zeta. destruct (files s !! archive_name ip hostname) as [old|] eqn:Hf.
  { unfold todo_remove.
    destruct (list_remove ip (todo s)) as [l|] eqn:Hl; intros [= <- <-] Hne; [|done].
    exists hostname. split_and!; [done..|]. left. eauto. }
  destruct (world (history s) (probe config ip)) as [resp|e] eqn:Hnet.
  2:{ by destruct (is_ConnectTimeout e); intros [= <- <-]. }
  destruct (ok resp) eqn:Hok.
  - destruct (creates world (archive_name ip hostname)); [|by intros [= <- <-]].
    unfold bind.
    destruct (for_filename_in _ _ _ _ _ _) as [r1 s1] eqn:Hloop.
    destruct r1 as [[]| |].
    2,3: apply for_filename_in_effect in Hloop as (Ht & _); by intros [= <- <-].
    eapply for_filename_in_returned in Hloop as (rs & _ & Ht & Hh & _);
      [|apply lookup_insert_eq].
    unfold todo_remove. rewrite Ht. cbn [todo files history record] in *.
    destruct (list_remove ip (todo s)) as [l|] eqn:Hl; intros [= <- <-] Hne; [|done].
    exists hostname. split_and!; [done..|]. right. right. split; [done|].
    exists resp. split_and!; [done..|]. cbn [history]. by rewrite Hh, <- !app_assoc.
  - unfold todo_remove, record. cbn [todo files history].
    destruct (list_remove ip (todo s)) as [l|] eqn:Hl; intros [= <- <-] Hne; [|done].
    exists hostname. split_and!; [done..|]. right. left. split; [done|].
    exists resp. split_and!; [done..|]. cbn [history]. by rewrite <- app_assoc.
Qed.

Lemma removed_once_body queue ip s :
  removed_once queue s → ip ∈ todo s → removed_once queue (body world config d ip s).2.
Proof.
  intros (Hnd & Hsub & Hcount) Hin.
  destruct (body world config d ip s) as [r s'] eqn:Hb. simpl. unfold removed_once.
  apply body_effect in Hb as (reqs & tail & Hh & _ & _ & Hcases & _ & _).
  destruct Hcases as [[-> Ht]|(st & -> & Hl)].
  - rewrite Ht. split_and!; [done..|]. intros ip'.
    by rewrite Hh, app_nil_r, removals_app, removals_requests, Nat.add_0_r.
  - destruct (list_remove_NoDup _ _ _ Hnd Hl) as (Hnd' & Hnot & Hmem).
    split_and!; [done| |].
    + intros x Hx. apply Hsub, Hmem. by right.
    + intros ip'. rewrite Hh, !removals_app, removals_requests, removals_removed, Hcount.
      destruct (decide (ip = ip')) as [<-|Hne].
      * rewrite decide_False by tauto. rewrite decide_True; [done|]. auto.
      * destruct (decide (ip' ∈ queue ∧ ip' ∉ todo s)) as [[H1 H2]|H1].
        -- rewrite decide_True; [done|]. split; [done|]. rewrite Hmem in H2. tauto.
        -- rewrite decide_False; [done|]. intros [H2 H3]. apply H1. split; [done|].
           rewrite Hmem. intros [?|?]; [congruence|done].
Qed.

Lemma removed_once_sleep queue s :
  removed_once queue s → removed_once queue (record s (Slept 15)).
Proof.
  intros (Hnd & Hsub & Hcount). split_and!; [done..|]. intros ip. simpl.
  rewrite removals_app, Hcount. unfold removals. rewrite filter_cons. simpl. lia.
Qed.

Lemma removed_once_while fuel queue s :
  removed_once queue s → removed_once queue (while_todo world config fuel d s).2.
Proof.
  apply (while_todo_invariant world config (removed_once queue)).
  - intros ip s0. apply removed_once_body.
  - intros s0. apply removed_once_sleep.
Qed.

(** The [while] loop returns with an empty queue only. *)
Lemma while_todo_returned fuel s s' :
  while_todo world config fuel d s = (Returned tt, s') → todo s' = [].
Proof.
  revert s. induction fuel as [|fuel IH]; intros s; simpl.
  - destruct (todo s) eqn:Ht; simpl; [|done]. by intros [= <-].
  - destruct (todo s) eqn:Ht; simpl; [by intros [= <-]|].
    unfold bind. destruct (pass world config d s) as [[[]| |] s1]; [|done..].
    apply IH.
Qed.

End Removal.

(** C4, as the code has it.  When the entries kept from the lease feed have
    pairwise distinct addresses, no address is ever queued twice, and over
    the run, wherever it stops, an address is removed from the queue once if
    it has left the queue and never if it is still queued; a run that
    returns has removed every address exactly once.  An iteration that
    changes the queue removes its own address, and does so under exactly one
    of three conditions: the archive exists; the archive is missing and the
    probe was answered without success; the archive is missing, the probe
    was answered with success and every resource of the manifest was
    requested. *)
Theorem distinct_addresses_removed_once (world : World) (config : Config) (fuel : nat)
    (disk : gmap string Archive) (ips : list (string * string)) (s1 : State) :
  get_ips_from_leases_live world (uri_leases config) (initial disk) = (Returned ips, s1) →
  NoDup (ips.*1) →
  NoDup (todo (main world config fuel (initial disk)).2)
  ∧ todo (main world config fuel (initial disk)).2 ⊆ ips.*1
  ∧ (∀ ip, ip ∈ ips.*1 →
       removals ip (history (main world config fuel (initial disk)).2)
       = if decide (ip ∈ todo (main world config fuel (initial disk)).2) then 0 else 1)
  ∧ (∀ ip, (main world config fuel (initial disk)).1 = Returned 0%Z → ip ∈ ips.*1 →
       removals ip (history (main world config fuel (initial disk)).2) = 1)
  ∧ (∀ d ip s r s', body world config d ip s = (r, s') → todo s' ≠ todo s →
       ∃ hostname,
         d !! ip = Some hostname
         ∧ list_remove ip (todo s) = Some (todo s')
         ∧ ((is_Some (files s !! archive_name ip hostname)
             ∧ history s' = history s ++ [Removed AlreadyDone ip])
            ∨ (files s !! archive_name ip hostname = None
               ∧ ∃ resp, world (history s) (probe config ip) = inl resp ∧ ok resp = false
                 ∧ history s' = history s
                     ++ [Requested (probe config ip); Removed NotEspEasy ip])
            ∨ (files s !! archive_name ip hostname = None
               ∧ ∃ resp, world (history s) (probe config ip) = inl resp ∧ ok resp = true
                 ∧ history s' = history s ++ [Requested (probe config ip)]
                     ++ ((Requested ∘ fetch config ip) <$> DOWNLOAD_FILES)
                     ++ [Removed Downloaded ip]))).
Proof.
  intros Hparse Hnd.
  assert (removed_once (ips.*1) (main world config fuel (initial disk)).2
          ∧ ((main world config fuel (initial disk)).1 = Returned 0%Z →
             todo (main world config fuel (initial disk)).2 = [])) as [(H1 & H2 & H3) H4].
  { rewrite main_cases, Hparse.
    apply get_ips_from_leases_live_effect in Hparse as [-> _].
    cbn [record initial files history app].
    assert (removed_once (ips.*1)
              (mkState (ips.*1) disk [Requested (lease_feed (uri_leases config))])) as Hinit.
    { split_and!; [done..|]. intros ip. simpl. by rewrite decide_False by tauto. }
    apply (removed_once_while world config (dict ips) fuel) in Hinit.
    destruct (while_todo _ _ _ _ _) as [[[]| |] s2] eqn:Hw; simpl in *; [|done..].
    split; [done|]. intros _. by apply while_todo_returned in Hw. }
  split_and!; [done..| | |].
  - intros ip Hin. rewrite H3.
    destruct (decide (ip ∈ todo _)) as [Hq|Hq].
    + by rewrite decide_False by tauto.
    + by rewrite decide_True.
  - intros ip Hret Hin. rewrite H3, (H4 Hret). rewrite decide_True; [done|].
    split; [done|]. apply not_elem_of_nil.
  - intros d ip s r s'. apply removal_conditions.
Qed.

(** ** Termination and pacing *)

(** C9, as the code has it.  The loop returns at once, without sleeping,
    when it finds the queue empty, and it returns with an empty queue only;
    every pass that completes ends with the sleep of 15 seconds, whatever it
    left in the queue, so a loop that started with a non-empty queue sleeps
    last of all, after the pass that emptied the queue; and when a pass has
    emptied the queue, the loop returns right after that sleep.  [main]
    returns no other value than 0, and only with an empty queue. *)
Theorem loop_returns_on_empty_queue (world : World) (config : Config)
    (d : gmap string string) :
  (∀ fuel s, todo s = [] → while_todo world config fuel d s = (Returned tt, s))
  ∧ (∀ fuel s s', while_todo world config fuel d s = (Returned tt, s') → todo s' = [])
  ∧ (∀ s s', pass world config d s = (Returned tt, s') →
       ∃ s1, for_ip_in_todo world config (length (todo s)) d 0 s = (Returned tt, s1)
             ∧ s' = record s1 (Slept 15))
  ∧ (∀ fuel s s', todo s ≠ [] → while_todo world config fuel d s = (Returned tt, s') →
       ∃ h, history s' = h ++ [Slept 15])
  ∧ (∀ fuel s s1, todo s ≠ [] → pass world config d s = (Returned tt, s1) → todo s1 = [] →
       while_todo world config (S fuel) d s = (Returned tt, s1))
  ∧ (∀ fuel s z s', main world config fuel s = (Returned z, s') → z = 0%Z ∧ todo s' = []).
Proof.
  assert (∀ s s', pass world config d s = (Returned tt, s') →
            ∃ s1, for_ip_in_todo world config (length (todo s)) d 0 s = (Returned tt, s1)
                  ∧ s' = record s1 (Slept 15)) as Hpass.
  { intros s s'. unfold pass, bind.
    destruct (for_ip_in_todo _ _ _ _ _ _) as [[[]| |] s1]; [|done..].
    intros [= <-]. by exists s1. }
  split_and!.
  - intros fuel s Hs. destruct fuel; simpl; by rewrite Hs.
  - intros fuel s s'. apply while_todo_returned.
  - done.
  - intros fuel. induction fuel as [|fuel IH]; intros s s' Hne; simpl.
    + by destruct (todo s).
    + destruct (todo s) eqn:Ht; [done|]. simpl. unfold bind.
      destruct (pass world config d s) as [[[]| |] s1] eqn:Hp; [|done..].
      apply Hpass in Hp as (sm & _ & ->).
      destruct (decide (todo sm = [])) as [He|He].
      * intros Hw. destruct fuel; simpl in Hw; rewrite He in Hw; simpl in Hw.
        all: injection Hw as <-; by eexists.
      * by apply IH.
  - intros fuel s s1 Hne Hp He. simpl.
    destruct (todo s) eqn:Ht; [done|]. simpl. unfold bind. rewrite Hp.
    destruct fuel; simpl; by rewrite He.
  - intros fuel s z s'. rewrite main_cases.
    destruct (get_ips_from_leases_live _ _ _) as [[ips| |] s1]; [|done..].
    destruct (while_todo _ _ _ _ _) as [[[]| |] s2] eqn:Hw; [|done..].
    intros [= <- <-]. split; [done|]. by apply while_todo_returned in Hw.
Qed.

(** * Sample runs *)

(** C1.  The [for] loop reads the live queue by index.  With the kitchen
    and the bath devices queued, both awake, and the archive of the kitchen
    already on disk, the first pass removes the kitchen and then stops: the
    bath, queued when the pass began and still queued when it ends, was not
    looked at.  Its probe comes in the second pass, after the sleep. *)
Theorem removal_skips_next_target :
  pass Runs.both_awake Sample.config Sample.names (Sample.queued Runs.archived [])
  = (Returned tt,
     mkState [Sample.bath_ip] Runs.archived
             [Removed AlreadyDone Sample.kitchen_ip; Slept 15])
  ∧ main Runs.both_awake Sample.config 1 (initial Runs.archived)
    = (Unfinished,
       mkState [Sample.bath_ip] Runs.archived
               [Runs.lease_request; Removed AlreadyDone Sample.kitchen_ip; Slept 15])
  ∧ take 5 (history (main Runs.both_awake Sample.config 2 (initial Runs.archived)).2)
    = [Runs.lease_request; Removed AlreadyDone Sample.kitchen_ip; Slept 15;
       Requested (probe Sample.config Sample.bath_ip);
       Requested (fetch Sample.config Sample.bath_ip "json")].
Proof. split_and!; vm_compute; reflexivity. Qed.

(** C2 fails for a probe that raises [ReadTimeout]: the exception leaves
    [main], with the target still queued. *)
Lemma read_timeout_ends_run :
  main (Runs.probe_fails ReadTimeout) Sample.config 3 (initial ∅)
  = (Raised (RequestException ReadTimeout),
     mkState [Sample.kitchen_ip] ∅
             [Runs.lease_request; Requested (probe Sample.config Sample.kitchen_ip)]).
Proof. vm_compute. reflexivity. Qed.

(** The kitchen device does not answer in time: it stays queued, and the
    loop moves on to the bath device.  When the probe of the kitchen device
    raises [ReadTimeout] the run ends with it. *)
Lemma connect_timeout_keeps_target_witness :
  (body (Runs.probe_fails ConnectTimeout) Sample.config Sample.names Sample.kitchen_ip
        (Sample.queued ∅ [])
   = (Returned tt,
      record (Sample.queued ∅ []) (Requested (probe Sample.config Sample.kitchen_ip)))
   ∧ for_ip_in_todo (Runs.probe_fails ConnectTimeout) Sample.config 2 Sample.names 0
       (Sample.queued ∅ [])
     = for_ip_in_todo (Runs.probe_fails ConnectTimeout) Sample.config 1 Sample.names 1
         (record (Sample.queued ∅ []) (Requested (probe Sample.config Sample.kitchen_ip))))
  ∧ (for_ip_in_todo (Runs.probe_fails ReadTimeout) Sample.config 1 Runs.kitchen_names 0
       Runs.kitchen_queued
     = (Raised (RequestException ReadTimeout),
        record Runs.kitchen_queued (Requested (probe Sample.config Sample.kitchen_ip)))
     ∧ (main (Runs.probe_fails ReadTimeout) Sample.config 3 (initial ∅)).1
       = Raised (RequestException ReadTimeout)
     ∧ history (main (Runs.probe_fails ReadTimeout) Sample.config 3 (initial ∅)).2
       = [Runs.lease_request; Requested (probe Sample.config Sample.kitchen_ip)]).
Proof.
  split.
  - destruct (connect_timeout_keeps_target (Runs.probe_fails ConnectTimeout) Sample.config
                Sample.names Sample.kitchen_ip "ESP-Kitchen" (Sample.queued ∅ [])
                ConnectTimeout) as [H _]; [vm_compute; reflexivity..|].
    destruct (H eq_refl) as [Hbody Hloop]. split; [exact Hbody|].
    apply Hloop. reflexivity.
  - destruct (connect_timeout_keeps_target (Runs.probe_fails ReadTimeout) Sample.config
                Runs.kitchen_names Sample.kitchen_ip "ESP-Kitchen" Runs.kitchen_queued
                ReadTimeout) as [_ H]; [vm_compute; reflexivity..|].
    destruct (H ltac:(discriminate)) as (_ & Hloop & Hmain). split.
    + apply Hloop. reflexivity.
    + apply Hmain. exists []. vm_compute. reflexivity.
Defined.



(** C4 fails for a feed that names one address twice: the address is queued
    twice, and the run removes it twice, once after the download and once
    because the archive exists by then. *)
Lemma duplicate_address_queued_twice :
  (get_ips_from_leases_live Runs.twice (uri_leases Sample.config) (initial ∅)).1
  = Returned [(Sample.kitchen_ip, "ESP-Kitchen"); (Sample.kitchen_ip, "ESP-Kitchen")]
  ∧ main Runs.twice Sample.config 0 (initial ∅)
    = (Unfinished, mkState [Sample.kitchen_ip; Sample.kitchen_ip] ∅ [Runs.lease_request])
  ∧ (main Runs.twice Sample.config 5 (initial ∅)).1 = Returned 0%Z
  ∧ filter (λ e, is_removal Sample.kitchen_ip e)
      (history (main Runs.twice Sample.config 5 (initial ∅)).2)
    = [Removed Downloaded Sample.kitchen_ip; Removed AlreadyDone Sample.kitchen_ip].
Proof. split_and!; vm_compute; reflexivity. Qed.

(** Two devices with distinct addresses, both awake: each is removed
    once. *)
Lemma distinct_addresses_removed_once_witness :
  NoDup (todo (main Runs.both_awake Sample.config 5 (initial ∅)).2)
  ∧ (∀ ip, ip ∈ [Sample.kitchen_ip; Sample.bath_ip] →
       removals ip (history (main Runs.both_awake Sample.config 5 (initial ∅)).2) = 1).
Proof.
  destruct (distinct_addresses_removed_once Runs.both_awake Sample.config 5 ∅
              [(Sample.kitchen_ip, "ESP-Kitchen"); (Sample.bath_ip, "ESP-Bath")]
              (record (initial ∅) Runs.lease_request))
    as (H1 & _ & _ & H4 & _).
  - vm_compute. reflexivity.
  - apply (bool_decide_unpack _). vm_compute. exact I.
  - split; [exact H1|]. intros ip Hip. apply H4; [vm_compute; reflexivity|exact Hip].
Defined.

(** Four well-formed lines: the entry of the other device is dropped, the
    repeated kitchen entry is kept twice, the order is that of the feed. *)
Lemma parser_keeps_esp_entries_witness :
  get_ips_from_leases_live Runs.mixed (uri_leases Sample.config) (initial ∅)
  = (Returned [(Sample.kitchen_ip, "ESP-Kitchen"); (Sample.bath_ip, "ESP-Bath");
               (Sample.kitchen_ip, "ESP-Kitchen")],
     record (initial ∅) Runs.lease_request).
Proof.
  apply (parser_keeps_esp_entries Runs.mixed (uri_leases Sample.config) (initial ∅)
           (Sample.feed [Sample.kitchen; Sample.other; Sample.bath; Sample.kitchen])
           [Sample.kitchen; Sample.other; Sample.bath; Sample.kitchen]
           [(Sample.kitchen_ip, "ESP-Kitchen"); ("192.168.1.52", "OTHER-Device");
            (Sample.bath_ip, "ESP-Bath"); (Sample.kitchen_ip, "ESP-Kitchen")]).
  - vm_compute. reflexivity.
  - reflexivity.
  - reflexivity.
  - repeat constructor; apply regex_sound; vm_compute; reflexivity.
Defined.

(** The archive of the kitchen device after its download. *)
Lemma archive_holds_manifest_witness :
  ∃ (hostname : string) (rs : list Response),
    Sample.names !! Sample.kitchen_ip = Some hostname
    ∧ archive_name Sample.kitchen_ip hostname = Sample.kitchen_zip
    ∧ files (body Runs.fetch_misses Sample.config Sample.names Sample.kitchen_ip
               (Sample.queued ∅ [])).2
      = <[archive_name Sample.kitchen_ip hostname
          := zip DOWNLOAD_FILES (content <$> rs)]> ∅
    ∧ length rs = 9.
Proof.
  destruct (archive_holds_manifest Runs.fetch_misses Sample.config Sample.names
              Sample.kitchen_ip (Sample.queued ∅ [])
              (body Runs.fetch_misses Sample.config Sample.names Sample.kitchen_ip
                 (Sample.queued ∅ [])).2)
    as (hostname & rs & Hd & Hname & _ & Hfiles & Hlen & _).
  - vm_compute. reflexivity.
  - vm_compute. reflexivity.
  - exists hostname, rs. split_and!; [exact Hd| |exact Hfiles|exact Hlen].
    injection Hd as <-. vm_compute. reflexivity.
Defined.


(** A line with an upper-case MAC and an identifier outside [ESP-] ends the
    run. *)
Lemma malformed_line_aborts_run_witness :
  main Runs.garbled_feed Sample.config 5 (initial ∅)
  = (Raised AttributeError, record (initial ∅) Runs.lease_request).
Proof.
  destruct (malformed_line_aborts_run Runs.garbled_feed Sample.config 5 ∅
              (Sample.feed [Sample.kitchen; Sample.garbled]))
    as (e & _ & He & _ & Hmain).
  - vm_compute. reflexivity.
  - reflexivity.
  - apply Exists_cons_tl, Exists_cons_hd.
    intros ip hostname Hl%regex_complete. vm_compute in Hl. discriminate Hl.
  - rewrite Hmain, He; [reflexivity|].
    intros b Hb. cbn in Hb. repeat (apply elem_of_cons in Hb as [Hb|Hb]; [discriminate Hb|]).
    by apply elem_of_nil in Hb.
Defined.

(** C8 fails for a line whose MAC field is not made of six octets:
    seventeen hexadecimal digits without a colon are outside the grammar
    of the description, yet the pattern takes them: the parser returns
    the entry, and the run goes on to download the device and returns. *)
Lemma unseparated_mac_is_accepted :
  (∀ ip hostname, ¬ lease_line_octets Sample.unseparated ip hostname)
  ∧ get_ips_from_leases_live Runs.unseparated_mac (uri_leases Sample.config) (initial ∅)
    = (Returned [(Sample.kitchen_ip, "ESP-Kitchen")],
       record (initial ∅) Runs.lease_request)
  ∧ main Runs.unseparated_mac Sample.config 1 (initial ∅)
    = (Returned 0%Z,
       mkState [] {[ Sample.kitchen_zip := Runs.full ]}
               ([Runs.lease_request; Requested (probe Sample.config Sample.kitchen_ip)]
                  ++ ((Requested ∘ fetch Sample.config Sample.kitchen_ip) <$> DOWNLOAD_FILES)
                  ++ [Removed Downloaded Sample.kitchen_ip; Slept 15])).
Proof.
  split_and!; [|vm_compute; reflexivity..].
  intros ip hostname (ts & mc & tl & Hline & Hts & _ & Hoct & _).
  do 10 (destruct ts as [|? ts]; [simpl in Hts; lia|]).
  destruct ts; [|simpl in Hts; lia].
  unfold Sample.unseparated in Hline. simpl in Hline.
  destruct mc as [|x [|y [|z mc]]]; cbn [octets Nat.eqb andb] in Hoct;
    try discriminate Hoct.
  apply andb_prop in Hoct as [[_ Hz]%andb_prop _]. apply Ascii.eqb_eq in Hz.
  simpl in Hline. by simplify_eq.
Qed.

(** A feed served without a declared encoding: the line is the well-formed
    line of the kitchen device, and the run ends with [TypeError]. *)
Lemma undecoded_feed_raises_type_error_witness :
  lease_line Sample.kitchen Sample.kitchen_ip "ESP-Kitchen"
  ∧ get_ips_from_leases_live Runs.undecoded (uri_leases Sample.config) (initial ∅)
    = (Raised TypeError, record (initial ∅) Runs.lease_request)
  ∧ main Runs.undecoded Sample.config 5 (initial ∅)
    = (Raised TypeError, record (initial ∅) Runs.lease_request).
Proof.
  split.
  - apply regex_sound. vm_compute. reflexivity.
  - apply (undecoded_feed_raises_type_error Runs.undecoded Sample.config 5 ∅
             (Sample.raw_feed [Sample.kitchen]) (list_byte_of_string Sample.kitchen) []).
    + vm_compute. reflexivity.
    + reflexivity.
    + reflexivity.
Defined.

(** C9 fails on its last part: with one target whose archive exists, the
    only pass empties the queue, and the run still sleeps before it
    returns 0. *)
Lemma sleep_follows_draining_pass :
  main (Runs.probe_fails ConnectTimeout) Sample.config 3 (initial Runs.archived)
  = (Returned 0%Z,
     mkState [] Runs.archived
             [Runs.lease_request; Removed AlreadyDone Sample.kitchen_ip; Slept 15]).
Proof. vm_compute. reflexivity. Qed.

(** A run over two devices ends with a sleep. *)
Lemma loop_returns_on_empty_queue_witness :
  ∃ h,
    history (while_todo Runs.both_awake Sample.config 3 Sample.names
               (Sample.queued Runs.archived [])).2
    = h ++ [Slept 15].
Proof.
  destruct (loop_returns_on_empty_queue Runs.both_awake Sample.config Sample.names)
    as (_ & _ & _ & H & _ & _).
  apply (H 3 (Sample.queued Runs.archived [])).
  - discriminate.
  - vm_compute. reflexivity.
Defined.

(** The router answers with an error page: [main] returns 0 without a
    single pass. *)
Lemma failed_lease_request_ends_run_witness :
  main Runs.no_feed Sample.config 0 (initial Runs.archived)
  = (Returned 0%Z, mkState [] Runs.archived [Runs.lease_request]).
Proof.
  apply (failed_lease_request_ends_run Runs.no_feed Sample.config 0 Runs.archived
           (Sample.page false Sample.braces)).
  - vm_compute. reflexivity.
  - reflexivity.
Defined.

(** ** End-to-end runs *)

(** One matching record, the device awake: one probe, nine fetches, and one
    archive with nine entries after a single pass. *)
Example one_device_awake :
  main Runs.alone Sample.config 1 (initial ∅)
  = (Returned 0%Z,
     mkState [] {[ Sample.kitchen_zip := Runs.full ]}
       ([Runs.lease_request; Requested (probe Sample.config Sample.kitchen_ip)]
          ++ ((Requested ∘ fetch Sample.config Sample.kitchen_ip) <$> DOWNLOAD_FILES)
          ++ [Removed Downloaded Sample.kitchen_ip; Slept 15])).
Proof. vm_compute. reflexivity. Qed.

(** The probe times out in the first pass and succeeds in the second: the
    device is still queued after one pass, and the archive is there after
    two. *)
Example one_device_wakes_late :
  main Runs.wakes_late Sample.config 1 (initial ∅)
  = (Unfinished,
     mkState [Sample.kitchen_ip] ∅
       [Runs.lease_request; Requested (probe Sample.config Sample.kitchen_ip); Slept 15])
  ∧ main Runs.wakes_late Sample.config 2 (initial ∅)
    = (Returned 0%Z,
       mkState [] {[ Sample.kitchen_zip := Runs.full ]}
         ([Runs.lease_request; Requested (probe Sample.config Sample.kitchen_ip);
           Slept 15; Requested (probe Sample.config Sample.kitchen_ip)]
            ++ ((Requested ∘ fetch Sample.config Sample.kitchen_ip) <$> DOWNLOAD_FILES)
            ++ [Removed Downloaded Sample.kitchen_ip; Slept 15])).
Proof. split; vm_compute; reflexivity. Qed.

(** A record whose identifier is [OTHER-Device] is not queued, and nothing
    is sent to its address. *)
Example other_device_ignored :
  main Runs.stranger Sample.config 0 (initial ∅)
  = (Returned 0%Z, mkState [] ∅ [Runs.lease_request]).
Proof. vm_compute. reflexivity. Qed.

(** An answer without success is stored like any other: the entry of
    [rules2.txt] is there, empty. *)
Example missing_resource_stored_empty :
  files (main Runs.fetch_misses Sample.config 1 (initial ∅)).2
  = {[ Sample.kitchen_zip := <[4 := ("rules2.txt", [])]> Runs.full ]}.
Proof. vm_compute. reflexivity. Qed.

(** An identifier with a [/] and no directory for the archive: the probe is
    answered, [zipfile.ZipFile] raises, nothing is fetched and the target
    stays queued. *)
Example archive_cannot_be_created :
  main Runs.no_directory Sample.config 1 (initial ∅)
  = (Raised OSError,
     mkState ["192.168.1.54"] ∅
             [Runs.lease_request; Requested (probe Sample.config "192.168.1.54")]).
Proof. vm_compute. reflexivity. Qed.

(** An [auth] list of three elements: the archive is created, the first
    [requests.get] raises before anything is sent, and the archive stays
    empty. *)
Example credentials_of_three_elements :
  main Runs.alone Sample.config3 1 (initial ∅)
  = (Raised TypeError,
     mkState [Sample.kitchen_ip] {[ Sample.kitchen_zip := [] ]}
             [Runs.lease_request; Requested (probe Sample.config3 Sample.kitchen_ip)]).
Proof. vm_compute. reflexivity. Qed.

(** * Further properties of the parser and of the loop *)

(** ** The pattern *)

(** X1.  The pattern of line 93 accepts a line exactly when the line has the
    shape of the grammar, its two groups are then the address and the
    identifier of the line, and it rejects a line exactly when the line has
    that shape for no address and identifier. *)
Theorem pattern_matches_grammar (line : string) :
  (∀ ip hostname,
     regex_dnsmasq_leases line = Some (ip, hostname) ↔ lease_line line ip hostname)
  ∧ (regex_dnsmasq_leases line = None ↔ ∀ ip hostname, ¬ lease_line line ip hostname).
Proof.
  split.
  - intros ip hostname. split; [apply regex_sound|apply regex_complete].
  - split; [|apply regex_rejects].
    intros Hnone ip hostname Hl%regex_complete. congruence.
Qed.

(** ** The parser *)

Lemma for_line_in_state lines acc s : (for_line_in lines acc s).2 = s.
Proof.
  destruct (for_line_in_outcome lines acc s) as (o & -> & _). done.
Qed.

(** Whatever the parser meets, all it does is the request for the feed. *)
Lemma get_ips_from_leases_live_state world uri s :
  (get_ips_from_leases_live world uri s).2 = record s (Requested (lease_feed uri)).
Proof.
  unfold get_ips_from_leases_live, bind. rewrite requests_sent by done.
  destruct (world (history s) (lease_feed uri)) as [resp|e]; [|done].
  destruct (ok resp); [|done]. apply for_line_in_state.
Qed.

Lemma for_line_in_kept lines acc s ips s' :
  for_line_in lines acc s = (Returned ips, s') →
  Forall kept_entry acc → Forall kept_entry ips.
Proof.
  revert acc. induction lines as [|[line|b] lines IH]; intros acc H Hacc; simpl in H.
  - unfold ret in H. by simplify_eq.
  - destruct (regex_dnsmasq_leases line) as [[ip h]|] eqn:E; [|done].
    apply regex_sound in E as (ts & mc & tl & _ & _ & _ & _ & _ & Hlen & Hip & Hh & Hhc & _).
    destruct (startswith h "ESP-") eqn:Hesp; [|by eapply IH].
    eapply IH; [exact H|].
    apply Forall_app. split; [done|]. constructor; [|constructor].
    unfold kept_entry, is_esp. simpl.
    split_and!; [lia|lia|done|done|done|by apply startswith_spec].
  - done.
Qed.

(** X2.  Whatever the feed holds, every pair that the parser returns has an
    address of seven to fifteen digits and dots and a non-empty identifier
    without spaces that begins with [ESP-]; there are no more pairs than the
    feed has lines; and the parser has done nothing but request the feed:
    the queue and the disk are as before. *)
Theorem parser_returns_kept_entries (world : World) (uri : string) (s s' : State)
    (ips : list (string * string)) :
  get_ips_from_leases_live world uri s = (Returned ips, s') →
  Forall kept_entry ips
  ∧ s' = record s (Requested (lease_feed uri))
  ∧ ∃ resp, world (history s) (lease_feed uri) = inl resp
            ∧ length ips ≤ length (iter_lines resp).
Proof.
  intros H. pose proof (get_ips_from_leases_live_state world uri s) as Hs.
  rewrite H in Hs. simpl in Hs. split_and!; [|done|].
  - revert H. unfold get_ips_from_leases_live, bind. rewrite requests_sent by done.
    destruct (world (history s) (lease_feed uri)) as [resp|e]; [|done].
    destruct (ok resp).
    + intros H. by apply for_line_in_kept in H.
    + unfold ret. intros [= <- _]. constructor.
  - revert H. unfold get_ips_from_leases_live, bind. rewrite requests_sent by done.
    destruct (world (history s) (lease_feed uri)) as [resp|e]; [|done].
    exists resp. split; [done|]. destruct (ok resp).
    + assert (∀ lines acc st out st',
                for_line_in lines acc st = (Returned out, st') →
                length out ≤ length acc + length lines) as Hlen.
      { induction lines as [|[line|b] lines IH]; intros acc st out st' Hrun; simpl in Hrun.
        - unfold ret in Hrun. simplify_eq. simpl. lia.
        - destruct (regex_dnsmasq_leases line) as [[ip h]|]; [|done].
          destruct (startswith h "ESP-"); apply IH in Hrun;
            rewrite ?length_app in Hrun; simpl in *; lia.
        - done. }
      apply Hlen in H. simpl in H. lia.
    + unfold ret in H. simplify_eq. simpl. lia.
Qed.

(** X3.  The request for the lease feed has no handler either: whatever
    exception it raises, [ConnectTimeout] included, leaves [main] at once,
    before anything is queued, probed or written. *)
Theorem lease_request_error_ends_run (world : World) (config : Config) (fuel : nat)
    (disk : gmap string Archive) (e : request_exception) :
  world [] (lease_feed (uri_leases config)) = inr e →
  main world config fuel (initial disk)
  = (Raised (RequestException e),
     mkState [] disk [Requested (lease_feed (uri_leases config))]).
Proof.
  intros Hnet. rewrite main_cases.
  unfold get_ips_from_leases_live, bind. rewrite requests_sent by done. cbn [history initial].
  by rewrite Hnet.
Qed.

(** ** Archive names *)

Lemma append_length a b : String.length (a +:+ b) = String.length a + String.length b.
Proof. induction a as [|c a IH]; simpl; [done|]. by rewrite IH. Qed.

Lemma append_inv_tail a b t : a +:+ t = b +:+ t → a = b.
Proof.
  revert b. induction a as [|c a IH]; intros [|c' b] H; simpl in H.
  - done.
  - apply (f_equal String.length) in H. simpl in H. rewrite !append_length in H.
    simpl in H. lia.
  - apply (f_equal String.length) in H. simpl in H. rewrite !append_length in H.
    simpl in H. lia.
  - injection H as -> H. f_equal. by apply IH.
Qed.

Lemma dash_inj c c' :
  Chars.addr c = true → Chars.addr c' = true →
  (if Ascii.eqb c "."%char then "-"%char else c)
  = (if Ascii.eqb c' "."%char then "-"%char else c') →
  c = c'.
Proof.
  intros Hc Hc'.
  destruct (Ascii.eqb c "."%char) eqn:E; destruct (Ascii.eqb c' "."%char) eqn:E'.
  - apply Ascii.eqb_eq in E, E'. congruence.
  - intros <-. by vm_compute in Hc'.
  - intros ->. by vm_compute in Hc.
  - done.
Qed.

Lemma dash_not_underscore c :
  Chars.addr c = true → (if Ascii.eqb c "."%char then "-"%char else c) ≠ "_"%char.
Proof.
  intros Hc. destruct (Ascii.eqb c "."%char); [done|].
  intros ->. by vm_compute in Hc.
Qed.

(** On addresses of digits and dots, the archive name tells the address and
    the identifier. *)
Lemma archive_name_eq ip ip' h h' :
  all Chars.addr ip = true → all Chars.addr ip' = true →
  archive_name ip h = archive_name ip' h' → ip = ip' ∧ h = h'.
Proof.
  unfold archive_name. revert ip'.
  induction ip as [|c ip IH]; intros [|c' ip']; simpl.
  - intros _ _ [= H]. split; [done|]. exact (append_inv_tail h h' ".zip" H).
  - intros _ [Hc _]%andb_prop [= H _]. by apply dash_not_underscore in Hc.
  - intros [Hc _]%andb_prop _ [= H _]. by apply dash_not_underscore in Hc.
  - intros [Hc Hip]%andb_prop [Hc' Hip']%andb_prop [= Hcc H].
    apply dash_inj in Hcc as ->; [|done..].
    destruct (IH ip' Hip Hip' H) as [-> ->]. done.
Qed.

(** X4.  Two entries that the parser returns and that differ, in the
    address or in the identifier, never share an archive file. *)
Theorem distinct_targets_distinct_archives (world : World) (uri : string) (s s' : State)
    (ips : list (string * string)) (e1 e2 : string * string) :
  get_ips_from_leases_live world uri s = (Returned ips, s') →
  e1 ∈ ips → e2 ∈ ips →
  archive_name e1.1 e1.2 = archive_name e2.1 e2.2 →
  e1 = e2.
Proof.
  intros [_ Haddr]%get_ips_from_leases_live_effect H1 H2 Hname.
  rewrite Forall_forall in Haddr.
  destruct e1 as [ip h], e2 as [ip' h'].
  destruct (archive_name_eq ip ip' h h' (Haddr _ H1) (Haddr _ H2) Hname) as [-> ->].
  done.
Qed.

(** ** The dictionary *)

Lemma dict_snoc pairs k v : dict (pairs ++ [(k, v)]) = <[k := v]> (dict pairs).
Proof. unfold dict. by rewrite foldl_app. Qed.

Lemma dict_is_Some pairs k : k ∈ pairs.*1 → is_Some (dict pairs !! k).
Proof.
  induction pairs as [|[k' v'] pairs IH] using rev_ind; [by intros ?%elem_of_nil|].
  rewrite fmap_app, elem_of_app, dict_snoc, lookup_insert. simpl.
  case_decide; [by eexists|]. intros [?|Hk%list_elem_of_singleton]; [auto|congruence].
Qed.

(** X5.  [ip2hostname[ip]] is the identifier of the last entry of the feed
    with the address [ip]; it is defined exactly for the addresses of the
    entries, so for every address of the queue. *)
Theorem identifier_of_last_entry (ips : list (string * string)) (ip : string) :
  dict ips !! ip = snd <$> last (filter (λ e, e.1 = ip) ips)
  ∧ (is_Some (dict ips !! ip) ↔ ip ∈ ips.*1).
Proof.
  split.
  - induction ips as [|[k v] ips IH] using rev_ind; [done|].
    rewrite dict_snoc, filter_app, filter_cons, filter_nil, lookup_insert. simpl.
    destruct (decide (k = ip)) as [->|Hne].
    + by rewrite last_snoc.
    + by rewrite app_nil_r.
  - split; [|apply dict_is_Some].
    intros [v Hv]. apply dict_lookup in Hv.
    apply list_elem_of_fmap. by exists (ip, v).
Qed.

(** ** Every way an iteration can end *)

Section Outcomes.

Variable world : World.
Variable config : Config.

(** The download loop, whether it returns or a request of it raises: the
    answers received so far are in the archive, and the loop has asked for
    one resource more than it stored when it was interrupted.  With
    credentials that are neither a pair nor empty, the first request
    raises before it is sent. *)
Lemma for_filename_in_outcome names ip a old s r s' :
  files s !! a = Some old →
  for_filename_in world config names ip a s = (r, s') →
  todo s' = todo s
  ∧ ∃ rs : list Response,
      files s' = <[a := old ++ zip (take (length rs) names) (content <$> rs)]> (files s)
      ∧ ((r = Returned tt ∧ length rs = length names
          ∧ history s' = history s ++ ((Requested ∘ fetch config ip) <$> names))
         ∨ (∃ e, r = Raised (RequestException e) ∧ length rs < length names
            ∧ history s'
              = history s ++ ((Requested ∘ fetch config ip) <$> take (S (length rs)) names))
         ∨ (r = Raised TypeError ∧ auth_ok (cfg_auth config) = false
            ∧ rs = [] ∧ history s' = history s)).
Proof.
  revert s old. induction names as [|f names IH]; intros s old Hold H.
  - simpl in H. unfold ret in H. simplify_eq. split; [done|]. exists []. simpl.
    rewrite !app_nil_r. split; [by rewrite insert_id|]. by left.
  - rewrite for_filename_in_cons in H.
    destruct (auth_ok (cfg_auth config)) eqn:Hauth.
    2:{ simplify_eq. split; [done|]. exists []. simpl.
        rewrite app_nil_r. split; [by rewrite insert_id|]. right. right. done. }
    destruct (world (history s) (fetch config ip f)) as [resp|e] eqn:Hn.
    + rewrite Hold in H. cbn [default] in H.
      eapply IH in H as (Ht & rs & Hf & Hcase); [|cbn [files]; apply lookup_insert_eq].
      cbn [todo files history] in *. split; [done|]. exists (resp :: rs). split.
      * rewrite Hf, insert_insert_eq. simpl. by rewrite <- app_assoc.
      * destruct Hcase as [(-> & Hlen & Hh)|[(e & -> & Hlen & Hh)|(_ & ? & _)]];
          [left|right; left; exists e|done].
        all: split_and!; [done|simpl; lia|]; rewrite Hh, <- app_assoc; done.
    + simplify_eq. cbn [todo files history record]. split; [done|]. exists []. simpl.
      rewrite app_nil_r. split; [by rewrite insert_id|].
      right. left. exists e. split_and!; [done|lia|done].
Qed.

(** One iteration over a queued address ends in one of eight ways. *)
Lemma body_summary d ip s r s' :
  ip ∈ todo s →
  body world config d ip s = (r, s') →
  (d !! ip = None ∧ r = Raised (KeyError ip) ∧ s' = s)
  ∨ ∃ hostname l,
      d !! ip = Some hostname
      ∧ list_remove ip (todo s) = Some l
      ∧ ((is_Some (files s !! archive_name ip hostname)
          ∧ r = Returned tt
          ∧ s' = mkState l (files s) (history s ++ [Removed AlreadyDone ip]))
         ∨ (files s !! archive_name ip hostname = None
            ∧ ∃ e, world (history s) (probe config ip) = inr e
              ∧ r = (if is_ConnectTimeout e then Returned tt
                     else Raised (RequestException e))
              ∧ s' = record s (Requested (probe config ip)))
         ∨ (files s !! archive_name ip hostname = None
            ∧ ∃ resp, world (history s) (probe config ip) = inl resp ∧ ok resp = false
              ∧ r = Returned tt
              ∧ s' = mkState l (files s)
                       (history s ++ [Requested (probe config ip); Removed NotEspEasy ip]))
         ∨ (files s !! archive_name ip hostname = None
            ∧ ∃ resp (rs : list Response),
                world (history s) (probe config ip) = inl resp ∧ ok resp = true
                ∧ ((length rs = length DOWNLOAD_FILES
                    ∧ r = Returned tt
                    ∧ s' = mkState l
                             (<[archive_name ip hostname
                                := zip DOWNLOAD_FILES (content <$> rs)]> (files s))
                             (history s ++ [Requested (probe config ip)]
                                ++ ((Requested ∘ fetch config ip) <$> DOWNLOAD_FILES)
                                ++ [Removed Downloaded ip]))
                   ∨ (∃ e, length rs < length DOWNLOAD_FILES
                      ∧ r = Raised (RequestException e)
                      ∧ s' = mkState (todo s)
                               (<[archive_name ip hostname
                                  := zip (take (length rs) DOWNLOAD_FILES)
                                         (content <$> rs)]> (files s))
                               (history s ++ [Requested (probe config ip)]
                                  ++ ((Requested ∘ fetch config ip)
                                        <$> take (S (length rs)) DOWNLOAD_FILES)))
                   ∨ (creates world (archive_name ip hostname) = false
                      ∧ r = Raised OSError
                      ∧ s' = record s (Requested (probe config ip)))
                   ∨ (auth_ok (cfg_auth config) = false
                      ∧ r = Raised TypeError
                      ∧ s' = mkState (todo s)
                               (<[archive_name ip hostname := []]> (files s))
                               (history s ++ [Requested (probe config ip)]))))).
Proof.
  intros Hin Hb. destruct (list_remove_elem ip (todo s) Hin) as [l Hl].
  rewrite body_cases in Hb. destruct (d !! ip) as [hostname|] eqn:Hd.
  2:{ simplify_eq. by left. }
  right. exists hostname, l. split; [done|]. split; [done|]. cbn zeta in Hb.
  destruct (files s !! archive_name ip hostname) as [old|] eqn:Hf.
  { unfold todo_remove in Hb. rewrite Hl in Hb. simplify_eq. left. eauto. }
  right. destruct (world (history s) (probe config ip)) as [resp|e] eqn:Hn.
  2:{ left. split; [done|]. exists e. split; [done|].
      by destruct (is_ConnectTimeout e); simplify_eq. }
  right. destruct (ok resp) eqn:Hok.
  2:{ unfold todo_remove, record in Hb. cbn [todo files history] in Hb.
      rewrite Hl in Hb. simplify_eq. left. split; [done|]. exists resp.
      split_and!; [done..|]. by rewrite <- app_assoc. }
  right. split; [done|].
  destruct (creates world (archive_name ip hostname)) eqn:Hcr.
  2:{ simplify_eq. exists resp, []. split; [done|]. split; [done|]. right. right. left. done. }
  unfold bind in Hb.
  destruct (for_filename_in _ _ _ _ _ _) as [r1 s1] eqn:Hloop.
  eapply for_filename_in_outcome in Hloop as (Ht & rs & Hfs & Hcase);
    [|apply lookup_insert_eq].
  cbn [todo files history record] in *. rewrite insert_insert_eq, app_nil_l in Hfs.
  exists resp, rs. split; [done|]. split; [done|].
  destruct Hcase as [(-> & Hlen & Hh)|[(e & -> & Hlen & Hh)|(-> & Hauth & -> & Hh)]].
  - unfold todo_remove in Hb. rewrite Ht, Hl in Hb. simplify_eq. left.
    split_and!; [done..|]. f_equal.
    + rewrite Hfs, Hlen. by rewrite take_ge.
    + rewrite Hh. by rewrite <- !app_assoc.
  - simplify_eq. right. left. exists e. split_and!; [done..|].
    destruct s' as [t1 f1 h1]. cbn [todo files history] in *. subst.
    by rewrite <- app_assoc.
  - simplify_eq. right. right. right. split_and!; [done..|].
    destruct s' as [t1 f1 h1]. cbn [todo files history] in *. by subst.
Qed.

End Outcomes.

(** ** Invariants of runs that return, and exceptions of runs that do not *)

Section Loops.

Variable world : World.
Variable config : Config.
Variable d : gmap string string.

(** A property that every returning iteration keeps holds when the loop
    returns. *)
Lemma for_ip_in_todo_returned_invariant (P : State → Prop) :
  (∀ ip s s', P s → ip ∈ todo s → body world config d ip s = (Returned tt, s') → P s') →
  ∀ n i s s', P s → for_ip_in_todo world config n d i s = (Returned tt, s') → P s'.
Proof.
  intros Hbody n. induction n as [|n IH]; intros i s s' HP; simpl.
  - destruct (todo s !! i); [done|]. by intros [= <-].
  - destruct (todo s !! i) as [ip|] eqn:Hi; [|by intros [= <-]].
    unfold bind. destruct (body world config d ip s) as [[[]| |] s1] eqn:Hb; [|done..].
    apply IH. eapply Hbody; [done| |done]. by eapply list_elem_of_lookup_2.
Qed.

Lemma while_todo_returned_invariant (P : State → Prop) :
  (∀ ip s s', P s → ip ∈ todo s → body world config d ip s = (Returned tt, s') → P s') →
  (∀ s, P s → P (record s (Slept 15))) →
  ∀ fuel s s', P s → while_todo world config fuel d s = (Returned tt, s') → P s'.
Proof.
  intros Hbody Hsleep fuel. induction fuel as [|fuel IH]; intros s s' HP; simpl.
  - destruct (0 <? length (todo s))%nat; [done|]. by intros [= <-].
  - destruct (0 <? length (todo s))%nat; [|by intros [= <-]].
    unfold bind, pass, bind.
    destruct (for_ip_in_todo _ _ _ _ _ _) as [[[]| |] s1] eqn:Hfor; [|done..].
    apply IH. apply Hsleep.
    by eapply (for_ip_in_todo_returned_invariant P Hbody) in Hfor.
Qed.

(** When every iteration keeps [P] and raises only exceptions in [R], the
    loops raise only exceptions in [R]. *)
Lemma for_ip_in_todo_raises (P : State → Prop) (R : exception → Prop) :
  (∀ ip s, P s → ip ∈ todo s →
     P (body world config d ip s).2
     ∧ ∀ e, (body world config d ip s).1 = Raised e → R e) →
  ∀ n i s e, P s → (for_ip_in_todo world config n d i s).1 = Raised e → R e.
Proof.
  intros Hbody n. induction n as [|n IH]; intros i s e HP; simpl.
  - by destruct (todo s !! i).
  - destruct (todo s !! i) as [ip|] eqn:Hi; [|done].
    unfold bind.
    destruct (Hbody ip s HP (list_elem_of_lookup_2 _ _ _ Hi)) as [HP' HR].
    destruct (body world config d ip s) as [[[]| |] s1]; simpl in *.
    + by apply IH.
    + intros [= <-]. by apply HR.
    + done.
Qed.

Lemma while_todo_raises (P : State → Prop) (R : exception → Prop) :
  (∀ ip s, P s → ip ∈ todo s →
     P (body world config d ip s).2
     ∧ ∀ e, (body world config d ip s).1 = Raised e → R e) →
  (∀ s, P s → P (record s (Slept 15))) →
  ∀ fuel s e, P s → (while_todo world config fuel d s).1 = Raised e → R e.
Proof.
  intros Hbody Hsleep fuel. induction fuel as [|fuel IH]; intros s e HP; simpl.
  - by destruct (0 <? length (todo s))%nat.
  - destruct (0 <? length (todo s))%nat; [|done].
    unfold bind, pass, bind.
    pose proof (for_ip_in_todo_invariant world config P d
                  (λ ip s0 H0 Hin, proj1 (Hbody ip s0 H0 Hin))
                  (length (todo s)) 0 s HP) as HP'.
    pose proof (for_ip_in_todo_raises P R Hbody (length (todo s)) 0 s) as HR.
    destruct (for_ip_in_todo _ _ _ _ _ _) as [[[]| |] s1]; simpl in *.
    + apply IH. by apply Hsleep.
    + intros [= <-]. by apply HR.
    + done.
Qed.

(** An iteration over a queued address that the dictionary knows raises
    nothing but a transport error of [requests], a [TypeError] for
    credentials that are neither a pair nor empty, or an [OSError] for an
    archive that cannot be created. *)
Lemma body_raises ip s e :
  ip ∈ todo s → is_Some (d !! ip) →
  (body world config d ip s).1 = Raised e →
  (∃ re, e = RequestException re)
  ∨ (e = TypeError ∧ auth_ok (cfg_auth config) = false)
  ∨ (e = OSError ∧ ∃ name, creates world name = false).
Proof.
  intros Hin [hostname Hd].
  destruct (body world config d ip s) as [r s'] eqn:Hb. simpl. intros ->.
  apply body_summary in Hb as [(Hnone & _)|(h & l & _ & _ & Hcase)];
    [congruence| |done].
  destruct Hcase as [(_ & ? & _)|[(_ & re & _ & Hr & _)|[(_ & resp & _ & _ & ? & _)
                    |(_ & resp & rs & _ & _ & [(_ & ? & _)|[(re & _ & Hr & _)
                       |[(Hcr & Hr & _)|(Hauth & Hr & _)]]])]]];
    try done.
  - destruct (is_ConnectTimeout re); [done|]. injection Hr as ->. left. by eexists.
  - injection Hr as ->. left. by eexists.
  - injection Hr as ->. right. right. eauto.
  - injection Hr as ->. right. left. done.
Qed.

Lemma body_subseteq ip s : todo (body world config d ip s).2 ⊆ todo s.
Proof.
  destruct (body world config d ip s) as [r s'] eqn:Hb. simpl.
  apply body_effect in Hb as (_ & _ & _ & _ & _ & [[_ ->]|(_ & _ & Hl)] & _ & _);
    [done|]. by apply list_remove_subseteq in Hl.
Qed.

End Loops.

(** The exceptions of a run: an [AttributeError] or a [TypeError] of the
    parser, before anything else was done; an exception of [requests.head]
    or [requests.get]; a [TypeError] for credentials that are neither a
    pair nor empty; an [OSError] for an archive that cannot be created. *)
Lemma main_raises_cases (world : World) (config : Config) (fuel : nat)
    (disk : gmap string Archive) (e : exception) :
  (main world config fuel (initial disk)).1 = Raised e →
  ((e = AttributeError ∨ e = TypeError)
   ∧ (main world config fuel (initial disk)).2
     = mkState [] disk [Requested (lease_feed (uri_leases config))])
  ∨ (∃ re, e = RequestException re)
  ∨ (e = TypeError ∧ auth_ok (cfg_auth config) = false)
  ∨ (e = OSError ∧ ∃ name, creates world name = false).
Proof.
  rewrite main_cases.
  destruct (get_ips_from_leases_live_cases world (uri_leases config) (initial disk))
    as [Hs Ho].
  destruct (get_ips_from_leases_live _ _ _) as [[ips|e'|] s1] eqn:Hparse;
    cbn [fst snd] in Hs, Ho; subst s1.
  - cbn [record initial files history app].
    assert (∀ e0, (while_todo world config fuel (dict ips)
                     (mkState (ips.*1) disk [Requested (lease_feed (uri_leases config))])).1
                  = Raised e0 →
                  (∃ re, e0 = RequestException re)
                  ∨ (e0 = TypeError ∧ auth_ok (cfg_auth config) = false)
                  ∨ (e0 = OSError ∧ ∃ name, creates world name = false)) as H.
    { intros e0.
      apply (while_todo_raises world config (dict ips)
               (λ s, ∀ ip, ip ∈ todo s → is_Some (dict ips !! ip))
               (λ e1, (∃ re, e1 = RequestException re)
                      ∨ (e1 = TypeError ∧ auth_ok (cfg_auth config) = false)
                      ∨ (e1 = OSError ∧ ∃ name, creates world name = false))).
      - intros ip s HP Hin. split.
        + intros ip' Hin'. apply HP. by eapply body_subseteq.
        + intros e1. apply body_raises; [done|]. by apply HP.
      - intros s HP. exact HP.
      - intros ip. simpl. apply dict_is_Some. }
    destruct (while_todo _ _ _ _ _) as [[[]| |] s2] eqn:Hw; simpl; [done| |done].
    intros [= <-]. right. by apply H.
  - simpl. intros [= <-]. cbn [initial history] in Ho.
    destruct (world [] (lease_feed (uri_leases config))) as [resp|re].
    + left. split; [|done]. destruct Ho as [[ips [=]]|[[= ->]|[= ->]]]; auto.
    + injection Ho as ->. right. left. by eexists.
  - done.
Qed.


(** ** The queue and the disk over a run *)

Lemma list_remove_sublist x l l' : list_remove x l = Some l' → l' `sublist_of` l.
Proof.
  intros (l1 & l2 & -> & -> & _)%list_remove_Some.
  apply sublist_app; [done|]. by apply sublist_cons.
Qed.

(** [main] in terms of the parser and of the [while] loop: its final state
    is the one of the loop, started on the parsed queue, when the parser
    returns, and otherwise the state after the request for the feed. *)
Lemma main_state world config fuel disk :
  let s0 := record (initial disk) (Requested (lease_feed (uri_leases config))) in
  (∃ ips,
     get_ips_from_leases_live world (uri_leases config) (initial disk) = (Returned ips, s0)
     ∧ (main world config fuel (initial disk)).2
       = (while_todo world config fuel (dict ips)
            (mkState (ips.*1) disk (history s0))).2
     ∧ ((main world config fuel (initial disk)).1 = Returned 0%Z
        ↔ (while_todo world config fuel (dict ips)
             (mkState (ips.*1) disk (history s0))).1 = Returned tt))
  ∨ ((main world config fuel (initial disk)).2 = s0
     ∧ ∃ e, (main world config fuel (initial disk)).1 = Raised e).
Proof.
  intros s0. rewrite main_cases.
  pose proof (get_ips_from_leases_live_state world (uri_leases config) (initial disk)) as Hs.
  pose proof (get_ips_from_leases_live_effect world (uri_leases config) (initial disk)) as He.
  destruct (get_ips_from_leases_live _ _ _) as [[ips|e|] s1] eqn:Hparse;
    simpl in Hs; subst s1.
  - left. exists ips. split; [done|]. cbn [files history record initial].
    destruct (while_todo _ _ _ _ _) as [[[]| |] s2]; simpl.
    all: split; [reflexivity|]; split; intros H; congruence.
  - right. split; [done|]. by exists e.
  - destruct (get_ips_from_leases_live_cases world (uri_leases config) (initial disk))
      as [_ Ho]. rewrite Hparse in Ho. cbn [fst] in Ho.
    by destruct (world _ _) as [resp|e]; [destruct Ho as [[ips ?]|[?|?]]|].
Qed.

Section Disk.

Variable world : World.
Variable config : Config.
Variable d : gmap string string.

Lemma body_sublist ip s : todo (body world config d ip s).2 `sublist_of` todo s.
Proof.
  destruct (body world config d ip s) as [r s'] eqn:Hb. simpl.
  apply body_effect in Hb as (_ & _ & _ & _ & _ & [[_ ->]|(_ & _ & Hl)] & _ & _);
    [done|]. by apply list_remove_sublist in Hl.
Qed.

(** An iteration changes no archive that was on disk before it. *)
Lemma body_keeps_archive ip s name a :
  ip ∈ todo s → files s !! name = Some a →
  files (body world config d ip s).2 !! name = Some a.
Proof.
  intros Hin Hname. destruct (body world config d ip s) as [r s'] eqn:Hb. simpl.
  apply body_summary in Hb; [|done].
  destruct Hb as [(_ & _ & ->)|(h & l & _ & _ & Hcase)]; [done|].
  destruct Hcase as [(_ & _ & ->)|[(_ & e & _ & _ & ->)|[(_ & resp & _ & _ & _ & ->)
                    |(Hnone & resp & rs & _ & _ & [(_ & _ & ->)|[(e & _ & _ & ->)
                       |[(_ & _ & ->)|(_ & _ & ->)]]])]]];
    cbn [files record]; try done.
  all: rewrite lookup_insert_ne; [done|]; intros Heq; rewrite Heq in Hnone; congruence.
Qed.

(** The archive that an iteration creates holds entries named by a prefix
    of the manifest, and by the whole manifest when the iteration returns. *)
Lemma body_new_archive ip s r s' name entries :
  ip ∈ todo s → body world config d ip s = (r, s') →
  files s !! name = None → files s' !! name = Some entries →
  entries.*1 `prefix_of` DOWNLOAD_FILES
  ∧ (r = Returned tt → entries.*1 = DOWNLOAD_FILES).
Proof.
  intros Hin Hb Hnone Hsome.
  apply body_summary in Hb; [|done].
  destruct Hb as [(_ & _ & ->)|(h & l & _ & _ & Hcase)]; [congruence|].
  destruct Hcase as [(_ & _ & ->)|[(_ & e & _ & _ & ->)|[(_ & resp & _ & _ & _ & ->)
                    |(_ & resp & rs & _ & _ & [(Hlen & -> & ->)|[(e & Hlen & -> & ->)
                       |[(_ & -> & ->)|(_ & -> & ->)]]])]]];
    cbn [files record] in Hsome; try congruence.
  - destruct (decide (archive_name ip h = name)) as [<-|Hne];
      [|rewrite lookup_insert_ne in Hsome by done; congruence].
    rewrite lookup_insert_eq in Hsome. simplify_eq.
    rewrite fst_zip by (rewrite length_fmap; lia). done.
  - destruct (decide (archive_name ip h = name)) as [<-|Hne];
      [|rewrite lookup_insert_ne in Hsome by done; congruence].
    rewrite lookup_insert_eq in Hsome. simplify_eq.
    rewrite fst_zip by (rewrite length_fmap, length_take; lia).
    split; [apply prefix_take|done].
  - destruct (decide (archive_name ip h = name)) as [<-|Hne];
      [|rewrite lookup_insert_ne in Hsome by done; congruence].
    rewrite lookup_insert_eq in Hsome. simplify_eq.
    split; [apply prefix_nil|done].
Qed.

End Disk.

(** X7.  The queue of a run only shrinks: whatever the network does and
    wherever the run stops, the queue is what is left of the parsed
    addresses after some of them were taken out, in the order of the feed;
    nothing is added and nothing is moved. *)
Theorem queue_only_shrinks (world : World) (config : Config) (fuel : nat)
    (disk : gmap string Archive) (ips : list (string * string)) (s1 : State) :
  get_ips_from_leases_live world (uri_leases config) (initial disk) = (Returned ips, s1) →
  todo (main world config fuel (initial disk)).2 `sublist_of` ips.*1.
Proof.
  intros Hparse.
  destruct (main_state world config fuel disk) as [(ips' & Hp & -> & _)|[Hs [e He]]].
  - rewrite Hparse in Hp. simplify_eq.
    apply (while_todo_invariant world config (λ s, todo s `sublist_of` ips'.*1)).
    + intros ip s Hs _. simpl. trans (todo s); [apply body_sublist|done].
    + done.
    + done.
  - rewrite Hs. simpl. apply sublist_nil_l.
Qed.

(** X8.  A run never changes an archive that was on disk when it started:
    wherever the run stops, the file still holds the same entries. *)
Theorem existing_archives_untouched (world : World) (config : Config) (fuel : nat)
    (disk : gmap string Archive) (name : string) (a : Archive) :
  disk !! name = Some a →
  files (main world config fuel (initial disk)).2 !! name = Some a.
Proof.
  intros Hname.
  destruct (main_state world config fuel disk) as [(ips & _ & -> & _)|[-> _]]; [|done].
  apply (while_todo_invariant world config (λ s, files s !! name = Some a)).
  - intros ip s Hs Hin. by apply body_keeps_archive.
  - done.
  - done.
Qed.

(** X9.  An archive that a run creates holds entries named by the first
    resources of the manifest, in manifest order, wherever the run stops;
    when [main] returns, every archive it created is named by the whole
    manifest. *)
Theorem created_archives_follow_manifest (world : World) (config : Config) (fuel : nat)
    (disk : gmap string Archive) (name : string) (entries : Archive) :
  disk !! name = None →
  files (main world config fuel (initial disk)).2 !! name = Some entries →
  entries.*1 `prefix_of` DOWNLOAD_FILES
  ∧ ((main world config fuel (initial disk)).1 = Returned 0%Z →
     entries.*1 = DOWNLOAD_FILES).
Proof.
  intros Hnone.
  destruct (main_state world config fuel disk) as [(ips & _ & -> & Hret)|[-> _]];
    [|simpl; congruence].
  intros Hsome. split.
  - revert entries Hsome.
    apply (while_todo_invariant world config
             (λ s, ∀ entries, files s !! name = Some entries →
                     entries.*1 `prefix_of` DOWNLOAD_FILES)).
    + intros ip s HP Hin entries Hsome.
      destruct (body world config (dict ips) ip s) as [r s'] eqn:Hb. simpl in Hsome.
      destruct (files s !! name) as [old|] eqn:Hold.
      * pose proof (body_keeps_archive world config (dict ips) ip s name old Hin Hold) as Hk.
        rewrite Hb in Hk. simpl in Hk. simplify_eq. by apply HP.
      * by eapply body_new_archive.
    + done.
    + simpl. congruence.
  - intros Hz. apply Hret in Hz.
    destruct (while_todo _ _ _ _ _) as [[[]| |] s2] eqn:Hw; [|done..].
    simpl in Hsome. revert entries Hsome.
    eapply (while_todo_returned_invariant world config (dict ips)
              (λ s, ∀ entries, files s !! name = Some entries →
                      entries.*1 = DOWNLOAD_FILES)); [| | |exact Hw].
    + intros ip s s' HP Hin Hb entries Hsome.
      destruct (files s !! name) as [old|] eqn:Hold.
      * pose proof (body_keeps_archive world config (dict ips) ip s name old Hin Hold) as Hk.
        rewrite Hb in Hk. simpl in Hk. simplify_eq. by apply HP.
      * by eapply body_new_archive.
    + done.
    + simpl. congruence.
Qed.

(** ** What a run sends, and when *)

Section Traffic.

Variable world : World.
Variable config : Config.
Variable d : gmap string string.

(** The events of one iteration: at most one probe, then fetches of
    resources of the manifest, which need a probe answered with success,
    then at most one removal. *)
Lemma body_history ip s r s' :
  ip ∈ todo s →
  body world config d ip s = (r, s') →
  ∃ (probes : list Event) (fs : list string) (tail : list Event),
    history s' = history s ++ probes ++ ((Requested ∘ fetch config ip) <$> fs) ++ tail
    ∧ (probes = [] ∨ probes = [Requested (probe config ip)])
    ∧ fs ⊆ DOWNLOAD_FILES
    ∧ (tail = [] ∨ ∃ st, tail = [Removed st ip])
    ∧ (fs ≠ [] →
       probes = [Requested (probe config ip)]
       ∧ ∃ resp, world (history s) (probe config ip) = inl resp ∧ ok resp = true).
Proof.
  intros Hin Hb. apply body_summary in Hb; [|done].
  assert (∀ l : list string, [] ⊆ l) as Hnil by (by intros l x ?%elem_of_nil).
  destruct Hb as [(_ & _ & ->)|(h & l & _ & _ & Hcase)].
  { exists [], [], []. rewrite !app_nil_r.
    split_and!; [done|by left|apply Hnil|by left|done]. }
  destruct Hcase as [(_ & _ & ->)|[(_ & e & _ & _ & ->)|[(_ & resp & _ & _ & _ & ->)
                    |(_ & resp & rs & Hn & Hok & [(_ & _ & ->)|[(e & _ & _ & ->)
                       |[(_ & _ & ->)|(_ & _ & ->)]]])]]];
    cbn [history record].
  - exists [], [], [Removed AlreadyDone ip].
    split_and!; [done|by left|apply Hnil|right; by eexists|done].
  - exists [Requested (probe config ip)], [], [].
    split_and!; [done|by right|apply Hnil|by left|done].
  - exists [Requested (probe config ip)], [], [Removed NotEspEasy ip].
    split_and!; [done|by right|apply Hnil|right; by eexists|done].
  - exists [Requested (probe config ip)], DOWNLOAD_FILES, [Removed Downloaded ip].
    split_and!; [done|by right|done|right; by eexists|].
    intros _. split; [done|]. by exists resp.
  - exists [Requested (probe config ip)], (take (S (length rs)) DOWNLOAD_FILES), [].
    rewrite app_nil_r. split_and!; [done|by right| |by left|].
    + intros f [i [Hi _]]%elem_of_take. by eapply list_elem_of_lookup_2.
    + intros _. split; [done|]. by exists resp.
  - exists [Requested (probe config ip)], [], [].
    split_and!; [done|by right|apply Hnil|by left|done].
  - exists [Requested (probe config ip)], [], [].
    split_and!; [done|by right|apply Hnil|by left|done].
Qed.

(** A download that is already in the history stays one when the history
    grows. *)
Lemma after_probe_app h more k ip :
  k < length h → after_probe world config h k ip → after_probe world config (h ++ more) k ip.
Proof.
  intros Hk (j & resp & Hj & Hp & Hnet & Hok & Hbetween).
  exists j, resp. split_and!; [done| | |done|].
  - by rewrite lookup_app_l by lia.
  - by rewrite take_app_le by lia.
  - intros m Hm. destruct (Hbetween m Hm) as [f Hf]. exists f.
    by rewrite lookup_app_l by lia.
Qed.

(** Inside the events of one iteration, a [GET] is a fetch that follows the
    probe of the iteration. *)
Lemma block_after_probe h ip fs tail resp k r :
  world h (probe config ip) = inl resp → ok resp = true →
  (tail = [] ∨ ∃ st, tail = [Removed st ip]) →
  length h ≤ k →
  (h ++ [Requested (probe config ip)] ++ ((Requested ∘ fetch config ip) <$> fs) ++ tail) !! k
  = Some (Requested r) →
  meth r = GET →
  ∃ f, r = fetch config ip f
       ∧ after_probe world config
           (h ++ [Requested (probe config ip)] ++ ((Requested ∘ fetch config ip) <$> fs) ++ tail)
           k ip.
Proof.
  intros Hnet Hok Htail Hk Hlook Hget.
  rewrite lookup_app_r in Hlook by done.
  destruct (k - length h) as [|m] eqn:Hkm; simpl in Hlook.
  { simplify_eq. }
  destruct (decide (m < length fs)) as [Hm|Hm].
  - rewrite lookup_app_l in Hlook by (by rewrite length_fmap).
    rewrite list_lookup_fmap in Hlook.
    destruct (fs !! m) as [f|] eqn:Hf; simplify_eq/=.
    exists f. split; [done|]. exists (length h), resp. split_and!; [lia| | |done|].
    + by rewrite list_lookup_middle.
    + by rewrite take_app_length.
    + intros m' Hm'. rewrite lookup_app_r by lia.
      destruct (m' - length h) as [|m''] eqn:Hm''; [lia|]. simpl.
      rewrite lookup_app_l by (rewrite length_fmap; lia).
      rewrite list_lookup_fmap.
      destruct (lookup_lt_is_Some_2 fs m'') as [f' Hf']; [lia|].
      rewrite Hf'. by exists f'.
  - rewrite lookup_app_r in Hlook by (rewrite length_fmap; lia).
    destruct Htail as [->|[st ->]]; [by rewrite lookup_nil in Hlook|].
    destruct (m - length _); simplify_eq/=.
Qed.

End Traffic.

(** X10.  After the request for the lease feed, a run sends nothing but
    probes of parsed addresses and fetches of resources of the manifest from
    parsed addresses; it removes parsed addresses only, and every sleep is
    one of 15 seconds. *)
Theorem run_contacts_parsed_targets_only (world : World) (config : Config) (fuel : nat)
    (disk : gmap string Archive) (ips : list (string * string)) (s1 : State) :
  get_ips_from_leases_live world (uri_leases config) (initial disk) = (Returned ips, s1) →
  ∃ evs,
    history (main world config fuel (initial disk)).2
    = Requested (lease_feed (uri_leases config)) :: evs
    ∧ Forall (expected config (ips.*1)) evs.
Proof.
  intros Hparse.
  destruct (main_state world config fuel disk) as [(ips' & Hp & -> & _)|[-> _]];
    [|exists []; split; [done|constructor]].
  rewrite Hparse in Hp. simplify_eq.
  cut (todo (while_todo world config fuel (dict ips')
               (mkState (ips'.*1) disk
                  (history (record (initial disk)
                              (Requested (lease_feed (uri_leases config))))))).2
       ⊆ ips'.*1
       ∧ ∃ evs,
           history (while_todo world config fuel (dict ips')
                      (mkState (ips'.*1) disk
                         (history (record (initial disk)
                                     (Requested (lease_feed (uri_leases config))))))).2
           = [Requested (lease_feed (uri_leases config))] ++ evs
           ∧ Forall (expected config (ips'.*1)) evs); [by intros [_ ?]|].
  apply (while_todo_invariant world config
           (λ s, todo s ⊆ ips'.*1
                 ∧ ∃ evs, history s = [Requested (lease_feed (uri_leases config))] ++ evs
                          ∧ Forall (expected config (ips'.*1)) evs)).
  - intros ip s [Hsub (evs & Hh & Hevs)] Hin. split.
    { etrans; [apply body_subseteq|done]. }
    destruct (body world config (dict ips') ip s) as [r s'] eqn:Hb. simpl.
    apply body_history in Hb as (probes & fs & tail & Hh' & Hprobes & Hfs & Htail & _);
      [|done].
    exists (evs ++ probes ++ ((Requested ∘ fetch config ip) <$> fs) ++ tail).
    split; [by rewrite Hh', Hh, <- app_assoc|].
    rewrite !Forall_app. split_and!; [done| | |].
    + destruct Hprobes as [->| ->]; [constructor|].
      constructor; [|constructor]. exists ip. split; [by apply Hsub|by left].
    + apply Forall_fmap, Forall_forall. intros f Hf. exists ip.
      split; [by apply Hsub|]. right. exists f. split; [by apply Hfs|done].
    + destruct Htail as [->|[st ->]]; [constructor|].
      constructor; [|constructor]. by apply Hsub.
  - intros s [Hsub (evs & Hh & Hevs)]. split; [done|].
    exists (evs ++ [Slept 15]). simpl. split; [by rewrite Hh|].
    apply Forall_app. split; [done|]. by constructor.
  - split; [done|]. exists []. split; [done|constructor].
Qed.

(** X11.  Resources are fetched from a device only in the iteration in which
    its probe was answered with success: every [GET] of a run after the
    request for the lease feed is a fetch from some address, the history
    holds a probe of that address before it, the answer to that probe was a
    success, and between the probe and the fetch there are only fetches
    from the same address. *)
Theorem fetch_follows_answered_probe (world : World) (config : Config) (fuel : nat)
    (disk : gmap string Archive) (k : nat) (r : Request) :
  0 < k →
  history (main world config fuel (initial disk)).2 !! k = Some (Requested r) →
  meth r = GET →
  ∃ ip f,
    r = fetch config ip f
    ∧ after_probe world config (history (main world config fuel (initial disk)).2) k ip.
Proof.
  intros Hk.
  destruct (main_state world config fuel disk) as [(ips & _ & -> & _)|[-> _]].
  2:{ simpl. destruct k as [|[|k]]; [lia|done..]. }
  revert k r Hk.
  apply (while_todo_invariant world config
           (λ s, 1 ≤ length (history s)
                 ∧ ∀ k r, 0 < k → history s !! k = Some (Requested r) → meth r = GET →
                     ∃ ip f, r = fetch config ip f
                             ∧ after_probe world config (history s) k ip)).
  - intros ip s [Hlen HP] Hin.
    destruct (body world config (dict ips) ip s) as [r0 s'] eqn:Hb. simpl.
    apply body_history in Hb as (probes & fs & tail & Hh & Hprobes & Hfs & Htail & Hreq);
      [|done].
    split; [rewrite Hh, length_app; lia|].
    intros k r Hk Hlook Hget. rewrite Hh in Hlook |- *.
    destruct (decide (k < length (history s))) as [Hlt|Hge].
    + rewrite lookup_app_l in Hlook by done.
      destruct (HP k r Hk Hlook Hget) as (ip' & f & -> & Hafter).
      exists ip', f. split; [done|]. by apply after_probe_app.
    + destruct fs as [|f0 fs].
      * rewrite lookup_app_r in Hlook by lia. simpl in Hlook.
        apply list_elem_of_lookup_2 in Hlook.
        apply elem_of_app in Hlook as [Hlook|Hlook].
        -- destruct Hprobes as [->| ->]; [by apply elem_of_nil in Hlook|].
           apply list_elem_of_singleton in Hlook. by simplify_eq.
        -- destruct Htail as [->|[st ->]]; [by apply elem_of_nil in Hlook|].
           by apply list_elem_of_singleton in Hlook.
      * destruct Hreq as (-> & resp & Hnet & Hok); [done|].
        destruct (block_after_probe world config (history s) ip (f0 :: fs) tail resp k r)
          as (f & -> & Hafter); [done|done|done|lia|done|done|].
        by exists ip, f.
  - intros s [Hlen HP]. split; [simpl; rewrite length_app; lia|].
    intros k r Hk Hlook Hget. simpl in *.
    destruct (decide (k < length (history s))) as [Hlt|Hge].
    + rewrite lookup_app_l in Hlook by done.
      destruct (HP k r Hk Hlook Hget) as (ip' & f & -> & Hafter).
      exists ip', f. split; [done|]. by apply after_probe_app.
    + rewrite lookup_app_r in Hlook by lia.
      apply list_elem_of_lookup_2, list_elem_of_singleton in Hlook. done.
  - simpl. split; [lia|]. intros [|[|k]] r; [lia|done..].
Qed.

(** ** How a run ends *)

Lemma list_remove_other x y l l' :
  list_remove x l = Some l' → y ≠ x → y ∈ l → y ∈ l'.
Proof.
  intros (l1 & l2 & -> & -> & _)%list_remove_Some Hne.
  rewrite !elem_of_app, elem_of_cons. intros [?|[?|?]]; auto. congruence.
Qed.

Lemma list_remove_middle x l1 l2 :
  x ∉ l1 → list_remove x (l1 ++ x :: l2) = Some (l1 ++ l2).
Proof.
  induction l1 as [|y l1 IH]; intros Hx; simpl.
  - by rewrite decide_True.
  - apply not_elem_of_cons in Hx as [Hne Hx].
    rewrite decide_False by congruence. by rewrite IH.
Qed.

Section Ending.

Variable world : World.
Variable config : Config.
Variable d : gmap string string.

(** The queued addresses of [queue] are still queued, have their archive or
    were found not to be ESPEasy nodes. *)
Lemma settled_body (queue : list string) ip s :
  ip ∈ todo s →
  (∀ x hostname, x ∈ queue → d !! x = Some hostname →
     x ∈ todo s ∨ is_Some (files s !! archive_name x hostname)
     ∨ Removed NotEspEasy x ∈ history s) →
  ∀ x hostname, x ∈ queue → d !! x = Some hostname →
    x ∈ todo (body world config d ip s).2
    ∨ is_Some (files (body world config d ip s).2 !! archive_name x hostname)
    ∨ Removed NotEspEasy x ∈ history (body world config d ip s).2.
Proof.
  intros Hin HP x hostname Hx Hd.
  destruct (body world config d ip s) as [r s'] eqn:Hb. simpl.
  pose proof Hb as Hsum. apply body_summary in Hsum; [|done].
  pose proof (body_keeps_archive world config d ip s (archive_name x hostname)) as Hkeep.
  rewrite Hb in Hkeep. simpl in Hkeep.
  pose proof Hb as Heff.
  apply body_effect in Heff as (reqs & tail & Hh & _ & _ & Hq & _ & _).
  destruct (HP x hostname Hx Hd) as [Hq0|[[a Ha]|Hev]].
  - destruct (decide (x = ip)) as [->|Hne].
    + destruct Hsum as [(Hnone & _)|(h & l & Hd' & Hl & Hcase)]; [congruence|].
      rewrite Hd in Hd'. simplify_eq.
      destruct Hcase as [(Hsome & _ & ->)|[(_ & e & _ & _ & ->)
                        |[(_ & resp & _ & _ & _ & ->)
                        |(_ & resp & rs & _ & _ & [(_ & _ & ->)|[(e & _ & _ & ->)
                           |[(_ & _ & ->)|(_ & _ & ->)]]])]]];
        cbn [todo files history record].
      * right. by left.
      * by left.
      * right. right. rewrite elem_of_app, !elem_of_cons. auto.
      * right. left. rewrite lookup_insert_eq. by eexists.
      * by left.
      * by left.
      * by left.
    + left. destruct Hq as [[_ ->]|(st & _ & Hl)]; [done|].
      by eapply list_remove_other.
  - right. left. rewrite (Hkeep a Hin Ha). by eexists.
  - right. right. rewrite Hh, elem_of_app. by left.
Qed.

(** Where every probe and every fetch is answered, the archive can be
    created and the credentials are a pair or empty, an iteration returns
    and takes its address out of the queue. *)
Lemma body_answered ip s :
  auth_ok (cfg_auth config) = true →
  ip ∈ todo s → is_Some (d !! ip) →
  (∀ hostname, d !! ip = Some hostname → creates world (archive_name ip hostname) = true) →
  (∀ h, ∃ r, world h (probe config ip) = inl r) →
  (∀ h f, f ∈ DOWNLOAD_FILES → ∃ r, world h (fetch config ip f) = inl r) →
  ∃ s', body world config d ip s = (Returned tt, s')
        ∧ list_remove ip (todo s) = Some (todo s').
Proof.
  intros Hauth Hin [hostname Hd] Hcr Hprobe Hfetch.
  destruct (list_remove_elem ip (todo s) Hin) as [l Hl].
  rewrite body_cases, Hd. cbn zeta.
  destruct (files s !! archive_name ip hostname) as [old|].
  { unfold todo_remove. rewrite Hl. by eexists. }
  destruct (Hprobe (history s)) as [resp ->].
  destruct (ok resp).
  2:{ unfold todo_remove, record. cbn [todo]. rewrite Hl. by eexists. }
  rewrite (Hcr hostname Hd). unfold bind.
  destruct (for_filename_in_answered world config DOWNLOAD_FILES ip
              (archive_name ip hostname)
              (mkState (todo s) (<[archive_name ip hostname := []]> (files s))
                 (history (record s (Requested (probe config ip))))) Hauth Hfetch)
    as [s1 Hloop].
  rewrite Hloop. apply for_filename_in_effect in Hloop as (Ht & _).
  unfold todo_remove. rewrite Ht. cbn [todo]. rewrite Hl. by eexists.
Qed.

Lemma for_ip_in_todo_answered (queue : list string) n i s :
  auth_ok (cfg_auth config) = true →
  (∀ ip, ip ∈ queue → is_Some (d !! ip)) →
  (∀ ip hostname, ip ∈ queue → d !! ip = Some hostname →
     creates world (archive_name ip hostname) = true) →
  (∀ h ip, ip ∈ queue → ∃ r, world h (probe config ip) = inl r) →
  (∀ h ip f, ip ∈ queue → f ∈ DOWNLOAD_FILES → ∃ r, world h (fetch config ip f) = inl r) →
  todo s ⊆ queue → length (todo s) ≤ n + i →
  ∃ s', for_ip_in_todo world config n d i s = (Returned tt, s')
        ∧ todo s' ⊆ queue
        ∧ length (todo s') ≤ length (todo s)
        ∧ (i < length (todo s) → length (todo s') < length (todo s)).
Proof.
  intros Hauth Hd Hcr Hprobe Hfetch. revert i s.
  induction n as [|n IH]; intros i s Hsub Hlen; simpl.
  - destruct (todo s !! i) eqn:Hi; [apply lookup_lt_Some in Hi; lia|].
    apply lookup_ge_None in Hi. exists s. split_and!; [done..|lia].
  - destruct (todo s !! i) as [ip|] eqn:Hi.
    2:{ apply lookup_ge_None in Hi. exists s. split_and!; [done..|lia]. }
    assert (ip ∈ todo s) as Hin by (by eapply list_elem_of_lookup_2).
    destruct (body_answered ip s Hauth Hin) as (s1 & Hb & Hl); [by apply Hd, Hsub|..].
    { intros hostname. by apply Hcr, Hsub. }
    { intros h. by apply Hprobe, Hsub. }
    { intros h f. by apply Hfetch, Hsub. }
    unfold bind. rewrite Hb.
    pose proof (list_remove_length _ _ _ Hl) as Hlen1.
    pose proof (list_remove_subseteq _ _ _ Hl) as Hsub1.
    destruct (IH (S i) s1) as (s' & Hrun & Hsub' & Hle & _);
      [by etrans|lia|].
    exists s'. split_and!; [done|done|lia|lia].
Qed.

Lemma while_todo_answered (queue : list string) fuel s :
  auth_ok (cfg_auth config) = true →
  (∀ ip, ip ∈ queue → is_Some (d !! ip)) →
  (∀ ip hostname, ip ∈ queue → d !! ip = Some hostname →
     creates world (archive_name ip hostname) = true) →
  (∀ h ip, ip ∈ queue → ∃ r, world h (probe config ip) = inl r) →
  (∀ h ip f, ip ∈ queue → f ∈ DOWNLOAD_FILES → ∃ r, world h (fetch config ip f) = inl r) →
  todo s ⊆ queue → length (todo s) ≤ fuel →
  ∃ s', while_todo world config fuel d s = (Returned tt, s').
Proof.
  intros Hauth Hd Hcr Hprobe Hfetch. revert s.
  induction fuel as [|fuel IH]; intros s Hsub Hlen; simpl.
  - destruct (0 <? length (todo s))%nat eqn:Hq; [|by eexists].
    apply Nat.ltb_lt in Hq. lia.
  - destruct (0 <? length (todo s))%nat eqn:Hq; [|by eexists].
    apply Nat.ltb_lt in Hq. unfold bind, pass, bind.
    destruct (for_ip_in_todo_answered queue (length (todo s)) 0 s Hauth Hd Hcr Hprobe
                Hfetch Hsub)
      as (s1 & Hrun & Hsub1 & _ & Hlt); [lia|].
    rewrite Hrun. apply IH; [done|]. simpl. specialize (Hlt Hq). lia.
Qed.

(** A pass over a queue of distinct addresses that all have their archive:
    the address under the iterator is removed, the next one slides into its
    place and is stepped over. *)
Lemma for_ip_in_todo_archived n kept rest disk h :
  NoDup (kept ++ rest) →
  (∀ x, x ∈ rest → ∃ hostname,
       d !! x = Some hostname ∧ is_Some (disk !! archive_name x hostname)) →
  length rest ≤ n →
  for_ip_in_todo world config n d (length kept) (mkState (kept ++ rest) disk h)
  = (Returned tt,
     mkState (kept ++ odds rest) disk (h ++ (Removed AlreadyDone <$> evens rest))).
Proof.
  revert kept rest h. induction n as [|n IH]; intros kept rest h Hnd Hall Hlen.
  - destruct rest; [|simpl in Hlen; lia]. cbn [for_ip_in_todo todo odds evens fmap list_fmap].
    rewrite lookup_ge_None_2 by (rewrite app_nil_r; lia). by rewrite !app_nil_r.
  - destruct rest as [|a rest].
    { cbn [for_ip_in_todo todo odds evens fmap list_fmap].
      rewrite lookup_ge_None_2 by (rewrite app_nil_r; lia). by rewrite !app_nil_r. }
    cbn [for_ip_in_todo todo]. rewrite list_lookup_middle by done.
    destruct (Hall a) as (hostname & Hd & [old Hold]); [by left|].
    unfold bind. rewrite body_cases, Hd. cbn zeta. cbn [files]. rewrite Hold.
    unfold todo_remove. cbn [todo files history].
    apply NoDup_app in Hnd as (Hkept & Hdisj & [Ha Hrest]%NoDup_cons).
    rewrite list_remove_middle by (intros Hin; by apply (Hdisj a Hin); left).
    destruct rest as [|b rest].
    + destruct n; cbn [for_ip_in_todo todo odds evens fmap list_fmap].
      all: rewrite lookup_ge_None_2 by (rewrite app_nil_r; lia); done.
    + replace (kept ++ b :: rest) with ((kept ++ [b]) ++ rest) by (by rewrite <- app_assoc).
      replace (S (length kept)) with (length (kept ++ [b])) by (rewrite length_app; simpl; lia).
      rewrite IH.
      * simpl. by rewrite <- !app_assoc.
      * rewrite <- app_assoc. simpl. apply NoDup_app. split_and!; [done| |].
        -- intros x Hx Hx'. apply (Hdisj x Hx). by right.
        -- done.
      * intros x Hx. apply Hall. by do 2 right.
      * simpl in Hlen. lia.
Qed.

End Ending.

(** X12.  When [main] returns, every target of the run is accounted for:
    for each parsed address, the archive named after it and its identifier
    is on disk, or the run removed the address as not being an ESPEasy node
    after a probe. *)
Theorem returned_run_settles_every_target (world : World) (config : Config) (fuel : nat)
    (disk : gmap string Archive) (ips : list (string * string)) (s1 : State)
    (ip hostname : string) :
  get_ips_from_leases_live world (uri_leases config) (initial disk) = (Returned ips, s1) →
  (main world config fuel (initial disk)).1 = Returned 0%Z →
  dict ips !! ip = Some hostname →
  is_Some (files (main world config fuel (initial disk)).2 !! archive_name ip hostname)
  ∨ Removed NotEspEasy ip ∈ history (main world config fuel (initial disk)).2.
Proof.
  intros Hparse Hret Hd.
  destruct (main_state world config fuel disk) as [(ips' & Hp & Hs & Hiff)|[_ [e He]]];
    [|congruence].
  rewrite Hparse in Hp. simplify_eq. rewrite Hs. apply Hiff in Hret.
  assert (ip ∈ ips'.*1) as Hin.
  { apply dict_lookup in Hd. apply list_elem_of_fmap. by exists (ip, hostname). }
  assert (∀ x h, x ∈ ips'.*1 → dict ips' !! x = Some h →
            let s' := (while_todo world config fuel (dict ips')
                         (mkState (ips'.*1) disk
                            (history (record (initial disk)
                               (Requested (lease_feed (uri_leases config))))))).2 in
            x ∈ todo s' ∨ is_Some (files s' !! archive_name x h)
            ∨ Removed NotEspEasy x ∈ history s') as Hinv.
  { apply (while_todo_invariant world config
             (λ s, ∀ x h, x ∈ ips'.*1 → dict ips' !! x = Some h →
                     x ∈ todo s ∨ is_Some (files s !! archive_name x h)
                     ∨ Removed NotEspEasy x ∈ history s)).
    - intros ip0 s0 HP Hin0. by apply settled_body.
    - intros s0 HP x h Hx Hdx. simpl.
      destruct (HP x h Hx Hdx) as [?|[?|?]]; auto.
      right. right. rewrite elem_of_app. by left.
    - intros x h Hx _. by left. }
  destruct (while_todo _ _ _ _ _) as [r s2] eqn:Hw. simpl in *. subst r.
  apply while_todo_returned in Hw as Hempty.
  destruct (Hinv ip hostname Hin Hd) as [Hq|[?|?]]; auto.
  rewrite Hempty in Hq. by apply elem_of_nil in Hq.
Qed.


Section Silent.

Variable world : World.
Variable config : Config.
Variable d : gmap string string.
Variable ip0 hostname0 : string.
Hypothesis Hd : d !! ip0 = Some hostname0.
Hypothesis Haddr : all Chars.addr ip0 = true.
Hypothesis Hsilent : ∀ h, world h (probe config ip0) = inr ConnectTimeout.

(** [ip0] is queued, has no archive, and the queue holds addresses of digits
    and dots. *)
Lemma waiting_body ip s :
  ip ∈ todo s →
  ip0 ∈ todo s ∧ files s !! archive_name ip0 hostname0 = None
  ∧ Forall (λ x, all Chars.addr x = true) (todo s) →
  ip0 ∈ todo (body world config d ip s).2
  ∧ files (body world config d ip s).2 !! archive_name ip0 hostname0 = None
  ∧ Forall (λ x, all Chars.addr x = true) (todo (body world config d ip s).2).
Proof.
  intros Hin (Hq & Hnone & Hall).
  assert (all Chars.addr ip = true) as Hip by (by eapply Forall_forall in Hall).
  pose proof (body_subseteq world config d ip s) as Hsub.
  destruct (body world config d ip s) as [r s'] eqn:Hb. simpl in *.
  assert (Forall (λ x, all Chars.addr x = true) (todo s')) as Hall'.
  { rewrite Forall_forall in Hall |- *. intros x Hx. by apply Hall, Hsub. }
  pose proof Hb as Heff.
  apply body_effect in Heff as (reqs & tail & _ & _ & _ & Hcase & _ & _).
  apply body_summary in Hb; [|done].
  destruct (decide (ip = ip0)) as [->|Hne].
  - destruct Hb as [(Hk & _)|(h & l & Hd' & _ & Hsum)]; [congruence|].
    rewrite Hd in Hd'. simplify_eq.
    destruct Hsum as [([? Hsome] & _)|[(_ & e & He & _ & ->)
                     |[(_ & resp & Hn & _)|(_ & resp & rs & Hn & _)]]].
    + congruence.
    + done.
    + rewrite Hsilent in Hn. done.
    + rewrite Hsilent in Hn. done.
  - split_and!; [|clear Hcase|done].
    + destruct Hcase as [[_ ->]|(st & _ & Hl)]; [done|]. by eapply list_remove_other.
    + destruct Hb as [(_ & _ & ->)|(h & l & Hd' & _ & Hsum)]; [done|].
      destruct Hsum as [(_ & _ & ->)|[(_ & e & _ & _ & ->)|[(_ & resp & _ & _ & _ & ->)
                       |(_ & resp & rs & _ & _ & [(_ & _ & ->)|[(e & _ & _ & ->)
                          |[(_ & _ & ->)|(_ & _ & ->)]]])]]];
        cbn [files record]; try done.
      all: rewrite lookup_insert_ne; [done|].
      all: intros Heq; by apply archive_name_eq in Heq as [? _].
Qed.

End Silent.

(** X14.  A parsed target that has no archive and whose probe always raises
    [ConnectTimeout] keeps the run going for ever: however many passes are
    made, the target is still queued, its archive is still missing, and
    [main] has not returned. *)
Theorem silent_target_keeps_run_going (world : World) (config : Config) (fuel : nat)
    (disk : gmap string Archive) (ips : list (string * string)) (s1 : State)
    (ip hostname : string) :
  get_ips_from_leases_live world (uri_leases config) (initial disk) = (Returned ips, s1) →
  dict ips !! ip = Some hostname →
  disk !! archive_name ip hostname = None →
  (∀ h, world h (probe config ip) = inr ConnectTimeout) →
  ip ∈ todo (main world config fuel (initial disk)).2
  ∧ files (main world config fuel (initial disk)).2 !! archive_name ip hostname = None
  ∧ ∀ z, (main world config fuel (initial disk)).1 ≠ Returned z.
Proof.
  intros Hparse Hd Hnone Hsilent.
  pose proof Hparse as [_ Haddr]%get_ips_from_leases_live_effect.
  assert (ip ∈ ips.*1) as Hin.
  { apply dict_lookup in Hd. apply list_elem_of_fmap. by exists (ip, hostname). }
  assert (Forall (λ x, all Chars.addr x = true) (ips.*1)) as Hall.
  { by apply Forall_fmap. }
  assert (all Chars.addr ip = true) as Hip by (by eapply Forall_forall in Hall).
  rewrite main_cases, Hparse.
  apply get_ips_from_leases_live_effect in Hparse as [-> _].
  cbn [record initial files history app].
  pose proof (while_todo_invariant world config
                (λ s, ip ∈ todo s ∧ files s !! archive_name ip hostname = None
                      ∧ Forall (λ x, all Chars.addr x = true) (todo s))
                (dict ips)
                (λ ip1 s0 HP Hin1,
                   waiting_body world config (dict ips) ip hostname Hd Hip Hsilent
                     ip1 s0 Hin1 HP)
                (λ s0 HP, HP) fuel
                (mkState (ips.*1) disk [Requested (lease_feed (uri_leases config))])
                (conj Hin (conj Hnone Hall))) as (Hq & Hf & _).
  destruct (while_todo _ _ _ _ _) as [[[]| |] s2] eqn:Hw; simpl in *.
  - apply while_todo_returned in Hw. rewrite Hw in Hq. by apply elem_of_nil in Hq.
  - done.
  - done.
Qed.

(** X15.  A pass over a queue of distinct addresses that all have their
    archive on disk sends nothing: it removes the addresses at positions 0,
    2, 4, ... of the queue, leaves those at positions 1, 3, 5, ... queued,
    and sleeps. *)
Theorem pass_over_archived_queue (world : World) (config : Config)
    (d : gmap string string) (s : State) :
  NoDup (todo s) →
  (∀ ip, ip ∈ todo s →
     ∃ hostname, d !! ip = Some hostname ∧ is_Some (files s !! archive_name ip hostname)) →
  pass world config d s
  = (Returned tt,
     mkState (odds (todo s)) (files s)
             (history s ++ (Removed AlreadyDone <$> evens (todo s)) ++ [Slept 15])).
Proof.
  intros Hnd Hall. unfold pass, bind. destruct s as [q disk h]. cbn [todo files history] in *.
  pose proof (for_ip_in_todo_archived world config d (length q) [] q disk h Hnd Hall (le_n _))
    as Hfor.
  cbn [app length] in Hfor. rewrite Hfor.
  unfold time_sleep. cbn [todo files history]. by rewrite <- app_assoc.
Qed.

(** * The further properties on sample runs *)

(** The entries kept from a feed of four lines. *)
Lemma parser_returns_kept_entries_witness :
  Forall kept_entry [Cases.kitchen_entry; Cases.bath_entry; Cases.kitchen_entry].
Proof.
  destruct (parser_returns_kept_entries Runs.mixed (uri_leases Sample.config) (initial ∅)
              (record (initial ∅) Runs.lease_request)
              [Cases.kitchen_entry; Cases.bath_entry; Cases.kitchen_entry]) as [H _].
  - vm_compute. reflexivity.
  - exact H.
Defined.

(** The router refuses the connection: [main] ends with [ConnectionError]. *)
Lemma lease_request_error_ends_run_witness :
  main (Cases.router_down ConnectionError) Sample.config 3 (initial Runs.archived)
  = (Raised (RequestException ConnectionError),
     mkState [] Runs.archived [Runs.lease_request]).
Proof.
  apply (lease_request_error_ends_run (Cases.router_down ConnectionError) Sample.config 3
           Runs.archived ConnectionError).
  reflexivity.
Defined.

(** Two entries of the feed with the same archive name are the same entry. *)
Lemma distinct_targets_distinct_archives_witness :
  Cases.kitchen_entry = Cases.kitchen_entry.
Proof.
  apply (distinct_targets_distinct_archives Runs.mixed (uri_leases Sample.config)
           (initial ∅) (record (initial ∅) Runs.lease_request)
           [Cases.kitchen_entry; Cases.bath_entry; Cases.kitchen_entry]).
  - vm_compute. reflexivity.
  - apply (bool_decide_unpack _). vm_compute. exact I.
  - apply (bool_decide_unpack _). vm_compute. exact I.
  - reflexivity.
Defined.


(** After one pass over two devices, of which the first has its archive,
    the queue is a part of the parsed queue. *)
Lemma queue_only_shrinks_witness :
  todo (main Runs.both_awake Sample.config 1 (initial Runs.archived)).2
  `sublist_of` [Sample.kitchen_ip; Sample.bath_ip].
Proof.
  apply (queue_only_shrinks Runs.both_awake Sample.config 1 Runs.archived
           [Cases.kitchen_entry; Cases.bath_entry]
           (record (initial Runs.archived) Runs.lease_request)).
  vm_compute. reflexivity.
Defined.

(** The empty archive of the kitchen device is still empty after the run. *)
Lemma existing_archives_untouched_witness :
  files (main Runs.both_awake Sample.config 5 (initial Runs.archived)).2
    !! Sample.kitchen_zip = Some [].
Proof.
  apply (existing_archives_untouched Runs.both_awake Sample.config 5 Runs.archived
           Sample.kitchen_zip []).
  vm_compute. reflexivity.
Defined.

(** The archive of the bath device, created by the run, is named by the
    whole manifest. *)
Lemma created_archives_follow_manifest_witness :
  Runs.full.*1 = DOWNLOAD_FILES.
Proof.
  destruct (created_archives_follow_manifest Runs.both_awake Sample.config 5 Runs.archived
              Cases.bath_zip Runs.full) as [_ H].
  - vm_compute. reflexivity.
  - vm_compute. reflexivity.
  - apply H. vm_compute. reflexivity.
Defined.

(** A run over two devices contacts no other address. *)
Lemma run_contacts_parsed_targets_only_witness :
  ∃ evs,
    history (main Runs.both_awake Sample.config 5 (initial ∅)).2
    = Runs.lease_request :: evs
    ∧ Forall (expected Sample.config [Sample.kitchen_ip; Sample.bath_ip]) evs.
Proof.
  apply (run_contacts_parsed_targets_only Runs.both_awake Sample.config 5 ∅
           [Cases.kitchen_entry; Cases.bath_entry]
           (record (initial ∅) Runs.lease_request)).
  vm_compute. reflexivity.
Defined.

(** The first fetch of a run follows the probe of the same device. *)
Lemma fetch_follows_answered_probe_witness :
  ∃ ip f,
    fetch Sample.config Sample.kitchen_ip "json" = fetch Sample.config ip f
    ∧ after_probe Runs.alone Sample.config
        (history (main Runs.alone Sample.config 1 (initial ∅)).2) 2 ip.
Proof.
  apply (fetch_follows_answered_probe Runs.alone Sample.config 1 ∅ 2
           (fetch Sample.config Sample.kitchen_ip "json")).
  - apply le_S, le_n.
  - vm_compute. reflexivity.
  - reflexivity.
Defined.

(** After a run over two devices that returns, the archive of the kitchen
    device is there, or the device was rejected. *)
Lemma returned_run_settles_every_target_witness :
  is_Some (files (main Runs.both_awake Sample.config 5 (initial ∅)).2
             !! archive_name Sample.kitchen_ip "ESP-Kitchen")
  ∨ Removed NotEspEasy Sample.kitchen_ip
    ∈ history (main Runs.both_awake Sample.config 5 (initial ∅)).2.
Proof.
  apply (returned_run_settles_every_target Runs.both_awake Sample.config 5 ∅
           [Cases.kitchen_entry; Cases.bath_entry]
           (record (initial ∅) Runs.lease_request)).
  - vm_compute. reflexivity.
  - vm_compute. reflexivity.
  - vm_compute. reflexivity.
Defined.


(** The kitchen device never answers the probe: after seven passes it is
    still queued and [main] has not returned. *)
Lemma silent_target_keeps_run_going_witness :
  Sample.kitchen_ip ∈ todo (main (Runs.probe_fails ConnectTimeout) Sample.config 7
                              (initial ∅)).2
  ∧ files (main (Runs.probe_fails ConnectTimeout) Sample.config 7 (initial ∅)).2
      !! archive_name Sample.kitchen_ip "ESP-Kitchen" = None
  ∧ ∀ z, (main (Runs.probe_fails ConnectTimeout) Sample.config 7 (initial ∅)).1
         ≠ Returned z.
Proof.
  apply (silent_target_keeps_run_going (Runs.probe_fails ConnectTimeout) Sample.config 7 ∅
           [Cases.kitchen_entry] (record (initial ∅) Runs.lease_request)).
  - vm_compute. reflexivity.
  - vm_compute. reflexivity.
  - vm_compute. reflexivity.
  - intros h. vm_compute. reflexivity.
Defined.

(** Both devices have their archive: one pass removes the kitchen device
    and leaves the bath device queued. *)
Lemma pass_over_archived_queue_witness :
  pass Runs.both_awake Sample.config Sample.names (Sample.queued Cases.all_archived [])
  = (Returned tt,
     mkState [Sample.bath_ip] Cases.all_archived
             [Removed AlreadyDone Sample.kitchen_ip; Slept 15]).
Proof.
  apply (pass_over_archived_queue Runs.both_awake Sample.config Sample.names
           (Sample.queued Cases.all_archived [])).
  - apply (bool_decide_unpack _). vm_compute. exact I.
  - intros ip Hip. apply elem_of_cons in Hip as [->|Hip].
    { exists "ESP-Kitchen". split; [vm_compute; reflexivity|].
      exists []. vm_compute. reflexivity. }
    apply list_elem_of_singleton in Hip as ->.
    exists "ESP-Bath". split; [vm_compute; reflexivity|].
    exists []. vm_compute. reflexivity.
Defined.
